(** * modernapp: the blog data model and its derived fields

    A shallow embedding of [models.py] (slug, excerpt and read-time
    generation, entity construction) and of the request handlers of [app.py]
    that create and search posts and comments.

    Python [str] values are sequences of code points.  The embedding keeps the
    code points U+0000..U+00FF (Rocq's 8-bit [ascii]), on which the character
    classes used by [re] ([\w], [\s]), [str.lower], [str.split] and
    [str.strip] are written out below exactly as CPython defines them.
    Python [int] values are [Z]. *)

From Stdlib Require Import Ascii String DecimalString DecimalZ.
From Stdlib Require Import ZArith Lia Bool List.
Import ListNotations.
Open Scope Z_scope.
Open Scope list_scope.

(** ** Python strings and the string operations the code calls *)
Module Py.

Definition pystr := list ascii.

(** A string literal of the source. *)
Definition lit (s : string) : pystr := list_ascii_of_string s.

Definition ord (c : ascii) : Z := Z.of_N (N_of_ascii c).
Definition chr (n : Z) : ascii := ascii_of_N (Z.to_N n).

Definition len (s : pystr) : Z := Z.of_nat (length s).

Definition between (lo hi : Z) (c : ascii) : bool :=
  (lo <=? ord c) && (ord c <=? hi).

Definition is_code (n : Z) (c : ascii) : bool := ord c =? n.

Definition ascii_lower (c : ascii) : bool := between 97 122 c.
Definition ascii_upper (c : ascii) : bool := between 65 90 c.
Definition ascii_digit (c : ascii) : bool := between 48 57 c.
Definition is_ascii (c : ascii) : bool := ord c <? 128.

Definition hyphen : ascii := "-"%char.
Definition underscore : ascii := "_"%char.
Definition space : ascii := " "%char.

(** [str.isalnum] on one code point: alphabetic, decimal, digit or numeric.
    Beyond ASCII these are the letters of Latin-1 (U+00AA, U+00B5, U+00BA,
    U+00C0..U+00FF without the two operators U+00D7 and U+00F7), the
    superscript digits U+00B2, U+00B3, U+00B9 and the vulgar fractions
    U+00BC..U+00BE. *)
Definition isalnum (c : ascii) : bool :=
  ascii_lower c || ascii_upper c || ascii_digit c
  || is_code 170 c || is_code 181 c || is_code 186 c
  || is_code 178 c || is_code 179 c || is_code 185 c
  || between 188 190 c
  || between 192 214 c || between 216 246 c || between 248 255 c.

(** [\w] of a [str] pattern: alphanumeric or underscore. *)
Definition re_word (c : ascii) : bool := isalnum c || is_code 95 c.

(** [str.isspace] on one code point, which is also [\s] of a [str] pattern:
    TAB..CR, the separators U+001C..U+001F, the space, U+0085 and U+00A0. *)
Definition isspace (c : ascii) : bool :=
  between 9 13 c || between 28 31 c || is_code 32 c
  || is_code 133 c || is_code 160 c.

(** [str.lower] on one code point. *)
Definition lower_char (c : ascii) : ascii :=
  if ascii_upper c || between 192 214 c || between 216 222 c
  then chr (ord c + 32) else c.

Definition lower (s : pystr) : pystr := map lower_char s.

(** [re.sub(cls, '', s)] for a one-character class [cls]: every character of
    the class is deleted. *)
Definition re_sub_delete (cls : ascii -> bool) (s : pystr) : pystr :=
  filter (fun c => negb (cls c)) s.

(** [re.sub(cls+, repl, s)] for a one-character class [cls]: every maximal
    run of characters of the class is replaced by [repl].  [in_run] tells
    that the previous character was in the class. *)
Fixpoint re_sub_runs_from (cls : ascii -> bool) (repl : pystr) (in_run : bool)
         (s : pystr) : pystr :=
  match s with
  | [] => []
  | c :: r =>
      if cls c
      then (if in_run then [] else repl) ++ re_sub_runs_from cls repl true r
      else c :: re_sub_runs_from cls repl false r
  end.

Definition re_sub_runs (cls : ascii -> bool) (repl : pystr) (s : pystr) : pystr :=
  re_sub_runs_from cls repl false s.

(** [s.lstrip(chars)], [s.rstrip(chars)], [s.strip(chars)] for a set of
    characters given as a predicate; [strip_ws] is [s.strip()]. *)
Fixpoint lstrip (cls : ascii -> bool) (s : pystr) : pystr :=
  match s with
  | [] => []
  | c :: r => if cls c then lstrip cls r else s
  end.

Definition rstrip (cls : ascii -> bool) (s : pystr) : pystr :=
  rev (lstrip cls (rev s)).

Definition strip (cls : ascii -> bool) (s : pystr) : pystr :=
  rstrip cls (lstrip cls s).

Definition strip_ws (s : pystr) : pystr := strip isspace s.

(** [s.split()]: the maximal runs of non-whitespace characters.  [cur] is
    the word being read, reversed. *)
Fixpoint split_from (cur : pystr) (s : pystr) : list pystr :=
  match s with
  | [] => match cur with [] => [] | _ => [rev cur] end
  | c :: r =>
      if isspace c
      then match cur with
           | [] => split_from [] r
           | _ => rev cur :: split_from [] r
           end
      else split_from (c :: cur) r
  end.

Definition split (s : pystr) : list pystr := split_from [] s.

(** [s[:n]]: a negative [n] counts from the end. *)
Definition slice_to (s : pystr) (n : Z) : pystr :=
  if n <? 0 then firstn (Z.to_nat (Z.max 0 (len s + n))) s
  else firstn (Z.to_nat n) s.

(** The part of [s] before its last occurrence of [sep], if [sep] occurs. *)
Fixpoint before_last (sep : ascii) (s : pystr) : option pystr :=
  match s with
  | [] => None
  | c :: r =>
      match before_last sep r with
      | Some p => Some (c :: p)
      | None => if Ascii.eqb c sep then Some [] else None
      end
  end.

(** [s.rsplit(sep, 1)[0]] for a one-character [sep]: [s] itself when [sep]
    does not occur in it. *)
Definition rsplit1_head (sep : ascii) (s : pystr) : pystr :=
  match before_last sep s with
  | Some p => p
  | None => s
  end.

(** [str(n)] and the [{n}] of an f-string, for an [int]. *)
Definition str_of_int (n : Z) : pystr :=
  lit (NilEmpty.string_of_int (Z.to_int n)).

(** Truthiness of an optional string attribute: [None] and [''] are false. *)
Definition truthy (o : option pystr) : bool :=
  match o with
  | Some (_ :: _) => true
  | _ => false
  end.

Definition str_eqb (a b : pystr) : bool :=
  if list_eq_dec ascii_dec a b then true else false.

(** [s.startswith(prefix)]. *)
Fixpoint startswith (prefix s : pystr) : bool :=
  match prefix, s with
  | [], _ => true
  | _ :: _, [] => false
  | a :: prefix', b :: s' => Ascii.eqb a b && startswith prefix' s'
  end.

(** [s.replace(old, new, 1)] for a non-empty [old]: the first occurrence of
    [old], read from the left, is replaced. *)
Fixpoint replace_first (old new s : pystr) : pystr :=
  if startswith old s then new ++ skipn (List.length old) s
  else match s with
       | [] => []
       | c :: r => c :: replace_first old new r
       end.

(** [s.split(sep)] for a one-character [sep]: the fields between the
    separators, empty ones included; the empty string has one empty
    field. *)
Fixpoint split_on (sep : ascii) (s : pystr) : list pystr :=
  match s with
  | [] => [[]]
  | c :: r =>
      if Ascii.eqb c sep then [] :: split_on sep r
      else match split_on sep r with
           | field :: fields => (c :: field) :: fields
           | [] => [[c]]
           end
  end.

(** [sep.join(parts)]. *)
Fixpoint join (sep : pystr) (parts : list pystr) : pystr :=
  match parts with
  | [] => []
  | [x] => x
  | x :: rest => x ++ sep ++ join sep rest
  end.

End Py.

Import Py.

(** ** models.py *)

(** An attribute of a mapped object that has not been set is [None].  A
    column [default] is applied by the INSERT that stores the row, not by the
    constructor: the inherited constructor only sets the keyword
    arguments it is given. *)
Definition or_default {A : Type} (o : option A) (d : A) : option A :=
  match o with
  | Some a => Some a
  | None => Some d
  end.

(** The next value of an autoincremented integer primary key. *)
Definition next_id (ids : list (option Z)) : Z :=
  1 + fold_right (fun o m => match o with Some i => Z.max i m | None => m end) 0 ids.

(** The class [[^\w\s-]] of the first substitution and the class [[\s_-]] of
    the second one, shared by both [generate_slug] methods. *)
Definition slug_stripped (c : ascii) : bool :=
  negb (re_word c || isspace c || is_code 45 c).

Definition slug_separator (c : ascii) : bool :=
  isspace c || is_code 95 c || is_code 45 c.

Module Category.

Record t := mk {
  id : option Z;
  name : option pystr;
  description : option pystr;
  color : option pystr;
  icon : option pystr;
  slug : option pystr;
  date_created : option Z
}.

(** [Category()] with no keyword argument. *)
Definition blank : t := mk None None None None None None None.

Definition set_slug (c : t) (s : option pystr) : t :=
  mk (id c) (name c) (description c) (color c) (icon c) s (date_created c).

(** [Category.generate_slug], on [self.name]. *)
Definition generate_slug (name : pystr) : pystr :=
  let slug := re_sub_delete slug_stripped (lower name) in
  let slug := re_sub_runs slug_separator (lit "-") slug in
  strip (is_code 45) slug.

(** [Category.__init__]; [kw] holds the keyword arguments. *)
Definition init (kw : t) : t :=
  match name kw with
  | Some (c :: n) =>
      if negb (truthy (slug kw))
      then set_slug kw (Some (generate_slug (c :: n)))
      else kw
  | _ => kw
  end.

(** The row stored for [c] by the INSERT issued at time [now]. *)
Definition stored (table : list t) (now : Z) (c : t) : t :=
  mk (or_default (id c) (next_id (map id table)))
     (name c) (description c)
     (or_default (color c) (lit "#007bff"))
     (or_default (icon c) (lit "bi-folder"))
     (slug c)
     (or_default (date_created c) now).

(** [db.session.add(c)] followed by the flush. *)
Definition add (table : list t) (now : Z) (c : t) : list t :=
  table ++ [stored table now c].

End Category.

Module BlogPost.

Record t := mk {
  id : option Z;
  title : option pystr;
  content : option pystr;
  excerpt : option pystr;
  slug : option pystr;
  meta_description : option pystr;
  featured_image : option pystr;
  published : option bool;
  featured : option bool;
  allow_comments : option bool;
  read_time : option pystr;
  view_count : option Z;
  date_created : option Z;
  date_modified : option Z;
  date_published : option Z;
  author_id : option Z;
  category_id : option Z
}.

(** [BlogPost()] with no keyword argument. *)
Definition blank : t :=
  mk None None None None None None None None None None None None None None
     None None None.

Definition set_slug (p : t) (s : option pystr) : t :=
  mk (id p) (title p) (content p) (excerpt p) s (meta_description p)
     (featured_image p) (published p) (featured p) (allow_comments p)
     (read_time p) (view_count p) (date_created p) (date_modified p)
     (date_published p) (author_id p) (category_id p).

Definition set_excerpt (p : t) (e : option pystr) : t :=
  mk (id p) (title p) (content p) e (slug p) (meta_description p)
     (featured_image p) (published p) (featured p) (allow_comments p)
     (read_time p) (view_count p) (date_created p) (date_modified p)
     (date_published p) (author_id p) (category_id p).

Definition set_read_time (p : t) (r : option pystr) : t :=
  mk (id p) (title p) (content p) (excerpt p) (slug p) (meta_description p)
     (featured_image p) (published p) (featured p) (allow_comments p)
     r (view_count p) (date_created p) (date_modified p)
     (date_published p) (author_id p) (category_id p).

Definition set_date_published (p : t) (d : option Z) : t :=
  mk (id p) (title p) (content p) (excerpt p) (slug p) (meta_description p)
     (featured_image p) (published p) (featured p) (allow_comments p)
     (read_time p) (view_count p) (date_created p) (date_modified p)
     d (author_id p) (category_id p).

(** [BlogPost.query.filter_by(slug=s).first()] on the rows of the table. *)
Definition first_by_slug (table : list t) (s : pystr) : option t :=
  find (fun p => match slug p with
                 | Some s' => str_eqb s' s
                 | None => false
                 end) table.

(** The base slug computed by the first three statements of
    [BlogPost.generate_slug]. *)
Definition base_slug (title : pystr) : pystr :=
  let slug := re_sub_delete slug_stripped (lower title) in
  let slug := re_sub_runs slug_separator (lit "-") slug in
  strip (is_code 45) slug.

(** The [while] loop of [generate_slug]: one unit of [fuel] per evaluation
    of its condition, [None] when the fuel runs out. *)
Fixpoint slug_loop (fuel : nat) (table : list t) (base_slug : pystr)
         (counter : Z) (unique_slug : pystr) : option pystr :=
  match fuel with
  | O => None
  | S fuel' =>
      match first_by_slug table unique_slug with
      | Some _ =>
          slug_loop fuel' table base_slug (counter + 1)
                    (base_slug ++ lit "-" ++ str_of_int counter)
      | None => Some unique_slug
      end
  end.

(** [BlogPost.generate_slug], on [self.title]. *)
Definition generate_slug (fuel : nat) (table : list t) (title : pystr)
  : option pystr :=
  let base := base_slug title in
  slug_loop fuel table base 1 base.

(** [BlogPost.generate_excerpt], on [self.content]. *)
Definition generate_excerpt (content : pystr) (length : Z) : pystr :=
  if len content <=? length then content
  else rsplit1_head space (slice_to content length) ++ lit "...".

Definition default_excerpt_length : Z := 150.

(** [BlogPost.calculate_read_time], on [self.content]. *)
Definition word_count (content : pystr) : Z :=
  Z.of_nat (List.length (split content)).

Definition calculate_read_time (content : pystr) : pystr :=
  let minutes := Z.max 1 (word_count content / 200) in
  str_of_int minutes ++ lit " min read".

(** [BlogPost.__init__] run at time [now] against the stored
    posts; [kw] holds the keyword arguments. *)
Definition init (fuel : nat) (table : list t) (now : Z) (kw : t) : option t :=
  match
    (match title kw with
     | Some (c :: r) =>
         if negb (truthy (slug kw))
         then option_map (fun s => set_slug kw (Some s))
                         (generate_slug fuel table (c :: r))
         else Some kw
     | _ => Some kw
     end)
  with
  | None => None
  | Some p =>
      let p :=
        match content p with
        | Some (c :: r) =>
            if negb (truthy (excerpt p))
            then set_excerpt p
                   (Some (generate_excerpt (c :: r) default_excerpt_length))
            else p
        | _ => p
        end in
      let p :=
        match content p with
        | Some (c :: r) =>
            if negb (truthy (read_time p))
            then set_read_time p (Some (calculate_read_time (c :: r)))
            else p
        | _ => p
        end in
      let p :=
        match published p, date_published p with
        | Some true, None => set_date_published p (Some now)
        | _, _ => p
        end in
      Some p
  end.

(** The row stored for [p] by the INSERT issued at time [now]: the column
    defaults fill the attributes that are still [None]. *)
Definition stored (table : list t) (now : Z) (p : t) : t :=
  mk (or_default (id p) (next_id (map id table)))
     (title p) (content p) (excerpt p) (slug p) (meta_description p)
     (featured_image p)
     (or_default (published p) true)
     (or_default (featured p) false)
     (or_default (allow_comments p) true)
     (or_default (read_time p) (lit "5 min read"))
     (or_default (view_count p) 0)
     (or_default (date_created p) now)
     (or_default (date_modified p) now)
     (date_published p) (author_id p) (category_id p).

(** [db.session.add(p)] followed by the flush, when the INSERT is
    accepted. *)
Definition add (table : list t) (now : Z) (p : t) : list t :=
  table ++ [stored table now p].

(** The constraints of the table: title, content, author and category are
    NOT NULL, the primary key and the slug are unique. *)
Definition accepted (table : list t) (row : t) : bool :=
  match title row, content row, author_id row, category_id row with
  | Some _, Some _, Some _, Some _ => true
  | _, _, _, _ => false
  end
  && match id row with
     | Some i => negb (existsb (fun q => match id q with
                                         | Some j => j =? i
                                         | None => false
                                         end) table)
     | None => true
     end
  && match slug row with
     | Some s => match first_by_slug table s with
                 | Some _ => false
                 | None => true
                 end
     | None => true
     end.

(** [db.session.add(p)] followed by the flush: [None] when the INSERT
    raises IntegrityError. *)
Definition insert (table : list t) (now : Z) (p : t) : option (list t) :=
  if accepted table (stored table now p) then Some (add table now p)
  else None.

(** [BlogPost.tag_list], on the names of [self.tags]. *)
Definition tag_list (tag_names : list pystr) : pystr :=
  join (lit ", ") tag_names.

End BlogPost.

Module Comment.

Record t := mk {
  id : option Z;
  content : option pystr;
  approved : option bool;
  flagged : option bool;
  date_created : option Z;
  date_modified : option Z;
  author_id : option Z;
  post_id : option Z;
  parent_id : option Z
}.

(** [Comment()] with no keyword argument; the class has no constructor of
    its own. *)
Definition blank : t := mk None None None None None None None None None.

(** The row stored for [c] by the INSERT issued at time [now]. *)
Definition stored (table : list t) (now : Z) (c : t) : t :=
  mk (or_default (id c) (next_id (map id table)))
     (content c)
     (or_default (approved c) true)
     (or_default (flagged c) false)
     (or_default (date_created c) now)
     (or_default (date_modified c) now)
     (author_id c) (post_id c) (parent_id c).

Definition add (table : list t) (now : Z) (c : t) : list t :=
  table ++ [stored table now c].

End Comment.

Module User.

Record t := mk {
  id : option Z;
  username : option pystr;
  email : option pystr;
  password_hash : option pystr;
  first_name : option pystr;
  last_name : option pystr;
  bio : option pystr;
  avatar_url : option pystr;
  is_active : option bool;
  is_admin : option bool;
  email_confirmed : option bool;
  date_created : option Z;
  last_seen : option Z
}.

(** [User.full_name]. *)
Definition full_name (u : t) : option pystr :=
  match first_name u, last_name u with
  | Some (a :: f), Some (b :: l) => Some ((a :: f) ++ lit " " ++ (b :: l))
  | _, _ => username u
  end.

(** The row stored for [u] by the INSERT issued at time [now]. *)
Definition stored (table : list t) (now : Z) (u : t) : t :=
  mk (or_default (id u) (next_id (map id table)))
     (username u) (email u) (password_hash u) (first_name u) (last_name u)
     (bio u) (avatar_url u)
     (or_default (is_active u) true)
     (or_default (is_admin u) false)
     (or_default (email_confirmed u) false)
     (or_default (date_created u) now)
     (or_default (last_seen u) now).

Definition add (table : list t) (now : Z) (u : t) : list t :=
  table ++ [stored table now u].

(** [User.query.filter_by(username=name).first()] and
    [User.query.filter_by(email=address).first()]. *)
Definition first_by_username (table : list t) (name : pystr) : option t :=
  find (fun u => match username u with
                 | Some n => str_eqb n name
                 | None => false
                 end) table.

Definition first_by_email (table : list t) (address : pystr) : option t :=
  find (fun u => match email u with
                 | Some e => str_eqb e address
                 | None => false
                 end) table.

End User.

(** ** The storage layer: SQLite, the database of every configuration *)
Module Sql.

(** A condition of a WHERE clause is true, false or NULL. *)
Definition cond := option bool.

Definition or3 (a b : cond) : cond :=
  match a, b with
  | Some true, _ => Some true
  | _, Some true => Some true
  | Some false, Some false => Some false
  | _, _ => None
  end.

(** A row is selected when the condition is true. *)
Definition holds (c : cond) : bool :=
  match c with
  | Some true => true
  | _ => false
  end.

(** LIKE folds the case of the ASCII letters only. *)
Definition fold_case (c : ascii) : ascii :=
  if ascii_upper c then chr (ord c + 32) else c.

(** The comparison of a pattern with a text: [%] matches any run of
    characters, [_] any single character, every other character itself up
    to ASCII case. *)
Fixpoint pattern_compare (pattern : pystr) : pystr -> bool :=
  match pattern with
  | [] => fun text => match text with [] => true | _ => false end
  | c :: pattern' =>
      if is_code 37 c then
        fix any_run (text : pystr) : bool :=
          pattern_compare pattern' text
          || match text with
             | [] => false
             | _ :: text' => any_run text'
             end
      else if is_code 95 c then
        fun text => match text with
                    | [] => false
                    | _ :: text' => pattern_compare pattern' text'
                    end
      else
        fun text => match text with
                    | [] => false
                    | d :: text' =>
                        Ascii.eqb (fold_case c) (fold_case d)
                        && pattern_compare pattern' text'
                    end
  end.

(** The number of bytes of a string in UTF-8. *)
Definition utf8_len (s : pystr) : Z :=
  fold_right (fun c n => (if is_ascii c then 1 else 2) + n) 0 s.

(** A string as the LIKE function reads it: up to its first U+0000. *)
Fixpoint c_string (s : pystr) : pystr :=
  match s with
  | [] => []
  | c :: r => if is_code 0 c then [] else c :: c_string r
  end.

(** A pattern of more than 50000 bytes is refused ("LIKE or GLOB pattern
    too complex"), before the text is looked at. *)
Definition pattern_limit : Z := 50000.

Definition too_complex (pattern : pystr) : bool :=
  pattern_limit <? utf8_len pattern.

(** [text LIKE pattern]; [None] when the statement fails. *)
Definition like (pattern text : pystr) : option bool :=
  if too_complex pattern then None
  else Some (pattern_compare (c_string pattern) (c_string text)).

(** [column.contains(other)], which SQLAlchemy renders as
    [column LIKE '%' || other || '%'] with no escaping of [other]; the
    value of a NULL column is NULL.  [None] when the statement fails. *)
Definition contains (column : option pystr) (other : pystr) : option cond :=
  let pattern := lit "%" ++ other ++ lit "%" in
  match column with
  | Some text => option_map Some (like pattern text)
  | None => if too_complex pattern then None else Some None
  end.

End Sql.

(** ** forms.py: the validators of [BlogPostForm] *)
Module BlogPostForm.

Record t := mk {
  title : pystr;
  excerpt : pystr;
  content : pystr;
  category : Z;
  tags : pystr;
  featured : bool;
  published : bool
}.

(** [DataRequired] on a text field. *)
Definition data_required (data : pystr) : bool :=
  match strip_ws data with
  | [] => false
  | _ => true
  end.

(** [Length(min, max)]; [max = -1] means no upper bound. *)
Definition length_ok (min max : Z) (data : pystr) : bool :=
  (min <=? len data) && ((max =? -1) || (len data <=? max)).

(** [Optional] followed by the remaining validators [rest]. *)
Definition optional (rest : pystr -> bool) (data : pystr) : bool :=
  match strip_ws data with
  | [] => true
  | _ => rest data
  end.

(** [form.validate()] for a submission without an uploaded image;
    [choices] are the identifiers of the stored categories. *)
Definition validate (choices : list Z) (f : t) : bool :=
  data_required (title f) && length_ok 5 200 (title f)
  && optional (length_ok (-1) 500) (excerpt f)
  && data_required (content f) && length_ok 50 (-1) (content f)
  && existsb (Z.eqb (category f)) (0 :: choices) && negb (category f =? 0)
  && optional (length_ok (-1) 200) (tags f).

End BlogPostForm.

(** ** forms.py: the validators of [RegisterForm] and [LoginForm].
    [valid_email] stands for the [Email] validator, which belongs to the
    form library. *)
Module RegisterForm.

Record t := mk {
  username : pystr;
  email : pystr;
  first_name : pystr;
  last_name : pystr;
  password : pystr;
  password2 : pystr
}.

Definition ascii_letter (c : ascii) : bool := ascii_lower c || ascii_upper c.

(** The class [[A-Za-z0-9_.]]. *)
Definition username_char (c : ascii) : bool :=
  ascii_letter c || ascii_digit c || is_code 95 c || is_code 46 c.

(** [re.match('^[A-Za-z][A-Za-z0-9_.]*$', data)]: a letter, then characters
    of the class up to the end of the string, where [$] also matches just
    before a newline that ends the string. *)
Definition username_regexp (data : pystr) : bool :=
  match data with
  | [] => false
  | c :: r =>
      ascii_letter c
      && (forallb username_char r
          || match rev r with
             | nl :: body => is_code 10 nl && forallb username_char body
             | [] => false
             end)
  end.

(** The validators [unique_username] and [unique_email]. *)
Definition unique_username (users : list User.t) (data : pystr) : bool :=
  match User.first_by_username users data with
  | Some _ => false
  | None => true
  end.

Definition unique_email (users : list User.t) (data : pystr) : bool :=
  match User.first_by_email users data with
  | Some _ => false
  | None => true
  end.

(** [form.validate()] against the stored users. *)
Definition validate (valid_email : pystr -> bool) (users : list User.t)
           (f : t) : bool :=
  BlogPostForm.data_required (username f)
  && BlogPostForm.length_ok 4 20 (username f)
  && username_regexp (username f)
  && unique_username users (username f)
  && BlogPostForm.data_required (email f)
  && valid_email (email f)
  && BlogPostForm.length_ok (-1) 120 (email f)
  && unique_email users (email f)
  && BlogPostForm.optional (BlogPostForm.length_ok (-1) 50) (first_name f)
  && BlogPostForm.optional (BlogPostForm.length_ok (-1) 50) (last_name f)
  && BlogPostForm.data_required (password f)
  && BlogPostForm.length_ok 8 (-1) (password f)
  && BlogPostForm.data_required (password2 f)
  && str_eqb (password2 f) (password f).

End RegisterForm.

Module LoginForm.

Record t := mk {
  email : pystr;
  password : pystr;
  remember_me : bool
}.

Definition validate (valid_email : pystr -> bool) (f : t) : bool :=
  BlogPostForm.data_required (email f)
  && valid_email (email f)
  && BlogPostForm.length_ok (-1) 120 (email f)
  && BlogPostForm.data_required (password f)
  && BlogPostForm.length_ok 6 (-1) (password f).

End LoginForm.

(** ** app.py *)
Module App.

Record Store := mkStore {
  categories : list Category.t;
  posts : list BlogPost.t;
  comments : list Comment.t
}.

(** How a request ends: a response, [abort(status)], or an uncaught
    exception. *)
Inductive Outcome (A : Type) : Type :=
| Ok (a : A)
| Abort (status : Z)
| Raise.
Arguments Ok {A} a.
Arguments Abort {A} status.
Arguments Raise {A}.

(** A value of a JSON request body. *)
Inductive Json : Type :=
| JNull
| JBool (b : bool)
| JNumber (n : Z)
| JString (s : pystr).

(** A statement sent to the database. *)
Inductive Statement : Type :=
| Select (table : pystr)
| Insert (table : pystr)
| Commit.

(** The filter expression shared by [api_get_posts] (when [search_query] is
    not empty) and [api_search]:
    [title.contains(term) | content.contains(term) | excerpt.contains(term)]. *)
Definition search_clause (term : pystr) (p : BlogPost.t)
  : option Sql.cond :=
  match Sql.contains (BlogPost.title p) term,
        Sql.contains (BlogPost.content p) term,
        Sql.contains (BlogPost.excerpt p) term with
  | Some a, Some b, Some c => Some (Sql.or3 (Sql.or3 a b) c)
  | _, _, _ => None
  end.

(** Whether the filter selects a row; [None] when the statement fails on
    it. *)
Definition search_filter (term : pystr) (p : BlogPost.t) : option bool :=
  option_map Sql.holds (search_clause term p).

(** The query of [api_search], [filter(...).limit(limit).all()]: the rows
    are read in table order until [limit] of them are selected. *)
Fixpoint search_rows (limit : nat) (term : pystr) (table : list BlogPost.t)
  : option (list BlogPost.t) :=
  match limit, table with
  | O, _ => Some []
  | _, [] => Some []
  | S limit', p :: rest =>
      match search_filter term p with
      | None => None
      | Some true => option_map (cons p) (search_rows limit' term rest)
      | Some false => search_rows limit term rest
      end
  end.

(** Whether the entry of a row can be built (lines 381 to 391):
    [len(post.excerpt)] raises TypeError on a row without excerpt, and
    [post.category.name] raises AttributeError on a row whose category is
    not stored.  The users are kept outside [Store]; the author of a row
    is not looked up here. *)
Definition renders (s : Store) (p : BlogPost.t) : bool :=
  match BlogPost.excerpt p, BlogPost.category_id p with
  | Some _, Some i =>
      existsb (fun c => match Category.id c with
                        | Some j => j =? i
                        | None => false
                        end) (categories s)
  | _, _ => false
  end.

(** [api_search] (lines 368 to 393): [search] is the entry of the JSON
    body under the key ['search'], if any.  The answer is given by the
    rows its entries are built from, in the order of the query; the
    request fails when the query does or when an entry cannot be built.
    The trace holds the statement of the handler's own query, not the
    statements by which the ORM loads the tags, the category and the
    author of the rows. *)
Definition api_search (s : Store) (search : option Json)
  : Outcome (list BlogPost.t) * list Statement :=
  match (match search with
         | None => Some []
         | Some (JString t) => Some t
         | Some _ => None
         end) with
  | None => (Raise, [])
  | Some raw =>
      let search_term := strip_ws raw in
      if negb (truthy (Some search_term)) || (len search_term <? 3)
      then (Ok [], [])
      else match search_rows 10 search_term (posts s) with
           | Some rows =>
               if forallb (renders s) rows
               then (Ok rows, [Select (lit "blog_post")])
               else (Raise, [Select (lit "blog_post")])
           | None => (Raise, [Select (lit "blog_post")])
           end
  end.

(** An integer that can be bound to a statement: the driver raises
    OverflowError on one outside the signed 64-bit range. *)
Definition sqlite_integer (i : Z) : bool :=
  (-9223372036854775808 <=? i) && (i <=? 9223372036854775807).

(** [BlogPost.query.get_or_404(post_id)], for an identifier that can be
    bound. *)
Definition get_or_404 (table : list BlogPost.t) (post_id : option Z)
  : Outcome BlogPost.t :=
  match post_id with
  | None => Abort 404
  | Some i =>
      match find (fun p => match BlogPost.id p with
                           | Some j => j =? i
                           | None => false
                           end) table with
      | Some p => Ok p
      | None => Abort 404
      end
  end.

(** [api_add_comment] for the logged-in user [current_user], at time [now];
    [post_id] and [content] are the entries of the JSON body (an integer
    and a string, when present).  An identifier that cannot be bound makes
    the look-up raise. *)
Definition api_add_comment (s : Store) (now : Z) (current_user : Z)
           (post_id : option Z) (content : option pystr)
  : Outcome Comment.t * Store :=
  let content := strip_ws (match content with Some c => c | None => [] end) in
  if negb (truthy (Some content)) then (Abort 400, s)
  else
    match (match post_id with
           | Some i =>
               if sqlite_integer i then get_or_404 (posts s) post_id
               else Raise
           | None => get_or_404 (posts s) post_id
           end) with
    | Ok _ =>
        let comment :=
          Comment.mk None (Some content) None None None None
                     (Some current_user) post_id None in
        let table := Comment.add (comments s) now comment in
        (Ok (Comment.stored (comments s) now comment),
         mkStore (categories s) (posts s) table)
    | Abort st => (Abort st, s)
    | Raise => (Raise, s)
    end.

(** What [create_post] answers: the redirection to the stored post, the
    page of the form, or the error page when the commit has failed. *)
Inductive Page : Type :=
| Redirect (post : BlogPost.t)
| Render
| ServerError.

(** The tag names read from the form by [create_post]:
    [[tag.strip() for tag in form.tags.data.split(',')]]. *)
Definition tag_names (data : pystr) : list pystr :=
  map strip_ws (split_on ","%char data).

(** A name that occurs twice. *)
Fixpoint repeats (names : list pystr) : bool :=
  match names with
  | [] => false
  | n :: rest => existsb (str_eqb n) rest || repeats rest
  end.

(** [create_post] on a submitted form, for the logged-in user
    [current_user]; the post is constructed at time [t_init] and stored at
    time [t_flush].  The tags and their links to the post are kept in
    tables that the store does not hold; the tag loop bears on the outcome
    in one way: a tag name given twice links the post twice to the same
    tag, on which the commit fails and nothing is stored, as it does when
    the INSERT of the post is refused.  [None] when the slug loop runs out
    of fuel. *)
Definition create_post (fuel : nat) (s : Store) (t_init t_flush : Z)
           (current_user : Z) (form : BlogPostForm.t)
  : option (Page * Store) :=
  let choices :=
    flat_map (fun c => match Category.id c with Some i => [i] | None => [] end)
             (categories s) in
  if BlogPostForm.validate choices form then
    let kw :=
      BlogPost.mk None (Some (BlogPostForm.title form))
                  (Some (BlogPostForm.content form))
                  (Some (BlogPostForm.excerpt form))
                  None None None None
                  (Some (BlogPostForm.featured form))
                  None None None None None None
                  (Some current_user) (Some (BlogPostForm.category form)) in
    match BlogPost.init fuel (posts s) t_init kw with
    | None => None
    | Some post =>
        if truthy (Some (BlogPostForm.tags form))
           && repeats (tag_names (BlogPostForm.tags form))
        then Some (ServerError, s)
        else
          match BlogPost.insert (posts s) t_flush post with
          | Some table =>
              Some (Redirect (BlogPost.stored (posts s) t_flush post),
                    mkStore (categories s) table (comments s))
          | None => Some (ServerError, s)
          end
    end
  else Some (Render, s).

(** The related posts of [post_detail]:
    [filter(category_id == post.category_id, id != post_id).limit(3)].
    A comparison with [None] is rendered as [IS NULL]. *)
Definition related_posts (table : list BlogPost.t) (post : BlogPost.t)
           (post_id : Z) : list BlogPost.t :=
  firstn 3
    (filter (fun p =>
               match BlogPost.category_id p, BlogPost.category_id post with
               | Some a, Some b => a =? b
               | None, None => true
               | _, _ => false
               end
               && match BlogPost.id p with
                  | Some i => negb (i =? post_id)
                  | None => false
                  end)
            table).

(** What [register] and [login] answer: a redirection or a page, the
    messages flashed, and for [login] the user put in the session. *)
Inductive Reply : Type :=
| RedirectTo (url : pystr)
| RenderTemplate (template : pystr).

Record Answer := mkAnswer {
  reply : Reply;
  flashed : list pystr;
  session_user : option User.t
}.

(** [register] on a submitted form.  [authenticated] tells whether a user
    is logged in, [generate_password_hash] is the hashing function of the
    security library with the salt of this request, [now] the time of the
    INSERT. *)
Definition register (valid_email : pystr -> bool)
           (generate_password_hash : pystr -> pystr)
           (authenticated : bool) (users : list User.t) (now : Z)
           (form : RegisterForm.t) : Answer * list User.t :=
  if authenticated then (mkAnswer (RedirectTo (lit "/")) [] None, users)
  else if RegisterForm.validate valid_email users form then
    match User.first_by_email users (RegisterForm.email form) with
    | Some _ =>
        (mkAnswer (RenderTemplate (lit "auth/register.html"))
                  [lit "Email already registered."] None, users)
    | None =>
        let user :=
          User.mk None (Some (RegisterForm.username form))
                  (Some (RegisterForm.email form))
                  (Some (generate_password_hash (RegisterForm.password form)))
                  None None None None None None None None None in
        (mkAnswer (RedirectTo (lit "/login"))
                  [lit "Registration successful! Please log in."] None,
         User.add users now user)
    end
  else (mkAnswer (RenderTemplate (lit "auth/register.html")) [] None, users).

(** [login] on a submitted form; [next] is the query argument of that
    name.  [login_user] puts the user in the session only when the user is
    active, and the handler does not look at what it returns.  [None] when
    the stored row has no password hash, on which the check raises. *)
Definition login (valid_email : pystr -> bool)
           (check_password_hash : pystr -> pystr -> bool)
           (authenticated : bool) (users : list User.t)
           (form : LoginForm.t) (next : option pystr) : option Answer :=
  if authenticated then Some (mkAnswer (RedirectTo (lit "/")) [] None)
  else if LoginForm.validate valid_email form then
    match User.first_by_email users (LoginForm.email form) with
    | Some user =>
        match User.password_hash user with
        | None => None
        | Some h =>
            if check_password_hash h (LoginForm.password form) then
              Some (mkAnswer
                      (RedirectTo (match next with
                                   | Some (c :: r) => c :: r
                                   | _ => lit "/"
                                   end))
                      [lit "Login successful!"]
                      (match User.is_active user with
                       | Some true => Some user
                       | _ => None
                       end))
            else
              Some (mkAnswer (RenderTemplate (lit "auth/login.html"))
                             [lit "Invalid email or password."] None)
        end
    | None =>
        Some (mkAnswer (RenderTemplate (lit "auth/login.html"))
                       [lit "Invalid email or password."] None)
    end
  else Some (mkAnswer (RenderTemplate (lit "auth/login.html")) [] None).

End App.

(** ** config.py *)
Module Config.

(** [ProductionConfig.SQLALCHEMY_DATABASE_URI]: [database_url] is the
    environment variable [DATABASE_URL], if set, and [db_path] the path of
    [blog.db] under the base directory. *)
Definition production_database_uri (database_url : option pystr)
           (db_path : pystr) : pystr :=
  let uri :=
    match database_url with
    | Some (c :: r) => c :: r
    | _ => lit "sqlite:///" ++ db_path
    end in
  if startswith (lit "postgres://") uri
  then replace_first (lit "postgres://") (lit "postgresql://") uri
  else uri.

End Config.

(** ** The statements of the specification, in its own words *)
Module Spec.

(** A cut of a text into [body] and [rest] splits a word when it falls
    between two characters that are not whitespace. *)
Definition splits_word (body rest : pystr) : Prop :=
  exists b x c r,
    body = b ++ [x] /\ rest = c :: r /\ isspace x = false /\ isspace c = false.

(** Excerpt generator: unchanged when short, otherwise a prefix cut at a
    word boundary followed by the ellipsis, within the maximum plus the
    length of the ellipsis; the empty content gives the empty excerpt. *)
Definition excerpt_contract (content : pystr) (length : Z) : Prop :=
  let e := BlogPost.generate_excerpt content length in
  (len content <= length -> e = content) /\
  (length < len content ->
     exists body rest,
       e = body ++ lit "..." /\ content = body ++ rest /\
       ~ splits_word body rest /\ len e <= length + 3) /\
  (content = [] -> e = []).

(** The candidates the loop of [BlogPost.generate_slug] tries from the
    state [(counter, unique_slug)]:
    [unique_slug] first, then [base-counter], [base-(counter+1)], ... *)
Definition candidate (base : pystr) (counter : Z) (unique_slug : pystr)
           (j : nat) : pystr :=
  match j with
  | O => unique_slug
  | S j' => base ++ lit "-" ++ str_of_int (counter + Z.of_nat j')
  end.

(** Two posts constructed and stored one after the other, the first at
    the times [t1] (construction) and [t1'] (INSERT), the second constructed
    at [t2]. *)
Definition create_two (fuel : nat) (table : list BlogPost.t) (t1 t1' t2 : Z)
           (kw1 kw2 : BlogPost.t) : option (BlogPost.t * BlogPost.t) :=
  match BlogPost.init fuel table t1 kw1 with
  | None => None
  | Some p1 =>
      match BlogPost.init fuel (BlogPost.add table t1' p1) t2 kw2 with
      | None => None
      | Some p2 => Some (p1, p2)
      end
  end.

(** Two posts of one title, created in sequence against [table], get two
    slugs, the second being the base slug followed by [-1]. *)
Definition same_title_contract (table : list BlogPost.t) (title : pystr)
  : Prop :=
  forall fuel t1 t1' t2 kw1 kw2 p1 p2,
    BlogPost.title kw1 = Some title -> BlogPost.title kw2 = Some title ->
    BlogPost.slug kw1 = None -> BlogPost.slug kw2 = None ->
    create_two fuel table t1 t1' t2 kw1 kw2 = Some (p1, p2) ->
    BlogPost.slug p1 <> BlogPost.slug p2 /\
    BlogPost.slug p2 = Some (BlogPost.base_slug title ++ lit "-1").

(** Entities named without any word character, constructed one after the
    other: the first gets the empty slug and the next one "-1".  Stated
    here for two categories. *)
Definition stripped_names_contract (first second : pystr) : Prop :=
  Category.slug
    (Category.init (Category.mk None (Some first) None None None None None))
  = Some [] /\
  Category.slug
    (Category.init (Category.mk None (Some second) None None None None None))
  = Some (lit "-1").

(** The characters a slug may hold: [a-z0-9-]. *)
Definition slug_char (c : ascii) : bool :=
  ascii_lower c || ascii_digit c || is_code 45 c.


(** The characters that LIKE reads as wildcards. *)
Definition wildcard (c : ascii) : bool := is_code 37 c || is_code 95 c.





(** [content] read as whitespace-delimited [words]: each word is a maximal
    run of characters that are not whitespace. *)
Inductive tokens : pystr -> list pystr -> Prop :=
| tokens_end : forall gap,
    Forall (fun c => isspace c = true) gap -> tokens gap []
| tokens_last : forall gap w,
    Forall (fun c => isspace c = true) gap ->
    w <> [] -> Forall (fun c => isspace c = false) w ->
    tokens (gap ++ w) [w]
| tokens_word : forall gap w sp rest ws,
    Forall (fun c => isspace c = true) gap ->
    w <> [] -> Forall (fun c => isspace c = false) w ->
    isspace sp = true ->
    tokens rest ws ->
    tokens (gap ++ w ++ sp :: rest) (w :: ws).

(** A reply comment and its parent are on the same post: every reference
    to a parent designates a stored comment of the same post. *)
Definition threads_on_one_post (table : list Comment.t) : Prop :=
  forall c, In c table ->
  forall pid, Comment.parent_id c = Some pid ->
  exists parent,
    In parent table /\ Comment.id parent = Some pid /\
    Comment.post_id parent = Comment.post_id c.

(** One comment-creating request. *)
Inductive comment_step (s s' : App.Store) : Prop :=
| step_add_comment : forall now user post_id content out,
    App.api_add_comment s now user post_id content = (out, s') ->
    comment_step s s'.

(** Any number of comment-creating requests. *)
Inductive comment_steps : App.Store -> App.Store -> Prop :=
| steps_refl : forall s, comment_steps s s
| steps_next : forall s s' s'',
    comment_steps s s' -> comment_step s' s'' -> comment_steps s s''.

End Spec.

(** ** Sample data *)
Module Sample.

(** [BlogPost(title=..., content=..., author_id=1, category_id=1)]. *)
Definition post_kw (title content : pystr) : BlogPost.t :=
  BlogPost.mk None (Some title) (Some content)
              None None None None None None None None None None None None
              (Some 1) (Some 1).

Definition hello_kw : BlogPost.t :=
  post_kw (lit "Hello World") (lit "Some text.").

(** [Category(name=...)]. *)
Definition category_kw (name : pystr) : Category.t :=
  Category.mk None (Some name) None None None None None.

(** A post whose three fields are given. *)
Definition post_of (title content excerpt : pystr) : BlogPost.t :=
  BlogPost.set_excerpt (post_kw title content) (Some excerpt).

(** The store after the category "Tutorial" has been created at time 0. *)
Definition store : App.Store :=
  App.mkStore (Category.add [] 0 (Category.init (category_kw (lit "Tutorial"))))
              [] [].

(** A form that passes validation, with "Publish Now" ticked. *)
Definition form : BlogPostForm.t :=
  BlogPostForm.mk
    (lit "Hello World")
    []
    (lit "This content is long enough to pass the validation of the form.")
    1 [] false true.

(** A stored comment on post 1 and a reply to it. *)
Definition thread : list Comment.t :=
  [Comment.mk (Some 1) (Some (lit "First")) (Some true) (Some false)
              (Some 5) (Some 5) (Some 1) (Some 1) None;
   Comment.mk (Some 2) (Some (lit "Reply")) (Some true) (Some false)
              (Some 6) (Some 6) (Some 1) (Some 1) (Some 1)].

(** Stand-ins for the functions of the form and security libraries. *)
Definition any_email (address : pystr) : bool := true.

Definition toy_hash (password : pystr) : pystr := lit "hash:" ++ password.

Definition toy_check (hash password : pystr) : bool :=
  str_eqb hash (toy_hash password).

Definition register_form : RegisterForm.t :=
  RegisterForm.mk (lit "alice") (lit "alice@example.com")
                  (lit "Alice") (lit "Liddell")
                  (lit "wonderland") (lit "wonderland").

End Sample.

(** ** What the stored tables are expected to satisfy *)
Module Inv.

(** The values of a column that are not NULL. *)
Definition keys {A : Type} (column : list (option A)) : list A :=
  flat_map (fun o => match o with Some a => [a] | None => [] end) column.

(** Primary keys and slugs of the posts are unique. *)
Definition unique_posts (table : list BlogPost.t) : Prop :=
  NoDup (keys (map BlogPost.id table)) /\
  NoDup (keys (map BlogPost.slug table)).

(** Primary keys, user names and addresses of the users are unique. *)
Definition unique_users (table : list User.t) : Prop :=
  NoDup (keys (map User.id table)) /\
  NoDup (keys (map User.username table)) /\
  NoDup (keys (map User.email table)).

(** Every comment is attached to a stored post. *)
Definition comments_on_posts (s : App.Store) : Prop :=
  forall c, In c (App.comments s) ->
  exists p i, In p (App.posts s) /\ BlogPost.id p = Some i /\
              Comment.post_id c = Some i.

(** One request that creates a post or a comment. *)
Inductive creation (s s' : App.Store) : Prop :=
| creates_comment : forall now user post_id content out,
    App.api_add_comment s now user post_id content = (out, s') ->
    creation s s'
| creates_post : forall fuel t_init t_flush user form page,
    App.create_post fuel s t_init t_flush user form = Some (page, s') ->
    creation s s'.

Inductive creations : App.Store -> App.Store -> Prop :=
| creations_none : forall s, creations s s
| creations_more : forall s s' s'',
    creations s s' -> creation s' s'' -> creations s s''.

(** A slug holds two hyphens in a row. *)
Definition double_hyphen (s : pystr) : Prop :=
  exists a b, s = a ++ hyphen :: hyphen :: b.

(** A character that a slug keeps as it is: a word character other than
    the underscore, in lower case. *)
Definition slug_letter (c : ascii) : bool :=
  re_word c && negb (is_code 95 c) && Ascii.eqb (lower_char c) c.

(** What a slug is made of: hyphens and such characters. *)
Definition slug_element (c : ascii) : Prop :=
  c = hyphen \/ slug_letter c = true.

(** Two hyphens in a row, as a test. *)
Fixpoint has_double_hyphen (s : pystr) : bool :=
  match s with
  | c :: r =>
      (is_code 45 c
       && match r with d :: _ => is_code 45 d | [] => false end)
      || has_double_hyphen r
  | [] => false
  end.

(** The excerpt, the read time and the publication timestamp that the
    constructor of a post leaves, from the keyword arguments. *)
Definition derived_excerpt (kw : BlogPost.t) : option pystr :=
  match BlogPost.content kw with
  | Some (c :: r) =>
      if truthy (BlogPost.excerpt kw) then BlogPost.excerpt kw
      else Some (BlogPost.generate_excerpt
                   (c :: r) BlogPost.default_excerpt_length)
  | _ => BlogPost.excerpt kw
  end.

Definition derived_read_time (kw : BlogPost.t) : option pystr :=
  match BlogPost.content kw with
  | Some (c :: r) =>
      if truthy (BlogPost.read_time kw) then BlogPost.read_time kw
      else Some (BlogPost.calculate_read_time (c :: r))
  | _ => BlogPost.read_time kw
  end.

Definition derived_date (now : Z) (kw : BlogPost.t) : option Z :=
  match BlogPost.published kw, BlogPost.date_published kw with
  | Some true, None => Some now
  | _, d => d
  end.

(** The number of [_] in a search term. *)
Definition underscores (term : pystr) : nat :=
  List.length (filter (is_code 95) term).

End Inv.

(** ** Facts about the string operations *)
Section StringFacts.

Lemma len_nonneg (s : pystr) : 0 <= len s.
Proof. unfold len. lia. Qed.

Lemma len_app (a b : pystr) : len (a ++ b) = len a + len b.
Proof. unfold len. rewrite length_app. lia. Qed.

Lemma before_last_some (sep : ascii) (s p : pystr) :
  before_last sep s = Some p ->
  exists tail, s = p ++ sep :: tail /\ ~ In sep tail.
Proof.
  revert p. induction s as [|c r IH]; intros p H; simpl in H.
  - discriminate.
  - destruct (before_last sep r) as [q|] eqn:E.
    + injection H as <-. destruct (IH q eq_refl) as [tail [-> Hn]].
      exists tail. split; [reflexivity | assumption].
    + destruct (Ascii.eqb c sep) eqn:Ec; [|discriminate].
      injection H as <-. apply Ascii.eqb_eq in Ec. subst c.
      exists r. split; [reflexivity|].
      clear IH. induction r as [|d r IHr]; simpl in *; [tauto|].
      destruct (before_last sep r); [discriminate|].
      destruct (Ascii.eqb d sep) eqn:Ed; [discriminate|].
      apply Ascii.eqb_neq in Ed. intros [->|Hin]; [congruence|].
      exact (IHr eq_refl Hin).
Qed.

Lemma before_last_none (sep : ascii) (s : pystr) :
  ~ In sep s -> before_last sep s = None.
Proof.
  induction s as [|c r IH]; intros H; simpl; [reflexivity|].
  rewrite IH by (intro; apply H; now right).
  destruct (Ascii.eqb c sep) eqn:Ec; [|reflexivity].
  apply Ascii.eqb_eq in Ec. exfalso. apply H. now left.
Qed.

Lemma before_last_found (sep : ascii) (body tail : pystr) :
  ~ In sep tail -> before_last sep (body ++ sep :: tail) = Some body.
Proof.
  intros Hn. induction body as [|c b IH]; simpl.
  - rewrite (before_last_none sep tail Hn). now rewrite Ascii.eqb_refl.
  - now rewrite IH.
Qed.

Lemma rsplit1_head_length (sep : ascii) (s : pystr) :
  (length (rsplit1_head sep s) <= length s)%nat.
Proof.
  unfold rsplit1_head. destruct (before_last sep s) as [p|] eqn:E; [|lia].
  destruct (before_last_some _ _ _ E) as [tail [-> _]].
  rewrite length_app. simpl. lia.
Qed.

Lemma slice_to_firstn (s : pystr) (n : Z) :
  0 <= n -> slice_to s n = firstn (Z.to_nat n) s.
Proof.
  intros Hn. unfold slice_to.
  destruct (n <? 0) eqn:E; [apply Z.ltb_lt in E; lia | reflexivity].
Qed.

Lemma slice_to_split (s : pystr) (n : Z) :
  0 <= n -> n < len s ->
  s = slice_to s n ++ skipn (Z.to_nat n) s /\ len (slice_to s n) = n.
Proof.
  intros Hn Hlt. rewrite slice_to_firstn by assumption. split.
  - symmetry. apply firstn_skipn.
  - unfold len in *. rewrite length_firstn. lia.
Qed.

End StringFacts.

(** ** The excerpt generator *)
Section Excerpt.

Lemma lit_ellipsis_len : len (lit "...") = 3.
Proof. reflexivity. Qed.

(** C1, as the code has it.  For a content and a maximum length that is not
    negative: a content within the maximum is returned unchanged, and the
    empty content gives the empty excerpt.  A longer content is cut to its
    first [length] characters; when that prefix holds a space character
    the excerpt is the part of the prefix before its last space, followed by
    the ellipsis, and when it holds none the excerpt is the whole prefix
    followed by the ellipsis.  Either way the excerpt is at most [length + 3]
    characters long. *)
Theorem generate_excerpt_spec (content : pystr) (length : Z) :
  0 <= length ->
  (len content <= length ->
     BlogPost.generate_excerpt content length = content) /\
  (length < len content ->
     exists prefix rest,
       content = prefix ++ rest /\ len prefix = length /\
       len (BlogPost.generate_excerpt content length) <= length + 3 /\
       (forall body tail,
          prefix = body ++ space :: tail -> ~ In space tail ->
          BlogPost.generate_excerpt content length = body ++ lit "...") /\
       (~ In space prefix ->
          BlogPost.generate_excerpt content length = prefix ++ lit "...")) /\
  (content = [] -> BlogPost.generate_excerpt content length = []).
Proof.
  intros Hn. unfold BlogPost.generate_excerpt. repeat split.
  - intros Hle. apply Z.leb_le in Hle. now rewrite Hle.
  - intros Hlt.
    assert (Hgt : (len content <=? length) = false) by (apply Z.leb_gt; lia).
    rewrite Hgt.
    destruct (slice_to_split content length Hn Hlt) as [Hsplit Hlen].
    exists (slice_to content length), (skipn (Z.to_nat length) content).
    split; [exact Hsplit|]. split; [exact Hlen|]. split; [|split].
    + rewrite len_app, lit_ellipsis_len.
      pose proof (rsplit1_head_length space (slice_to content length)) as Hr.
      unfold len in *. lia.
    + intros body tail Hp Hnin. unfold rsplit1_head.
      rewrite Hp, (before_last_found space body tail Hnin). reflexivity.
    + intros Hnin. unfold rsplit1_head.
      now rewrite (before_last_none space _ Hnin).
  - intros ->. assert (H0 : (len [] <=? length) = true)
      by (apply Z.leb_le; unfold len; simpl; lia).
    now rewrite H0.
Qed.

Lemma generate_excerpt_spec_witness :
  0 <= 5 /\
  BlogPost.generate_excerpt (lit "ab cdef") 5 = lit "ab...".
Proof.
  split; [lia|].
  destruct (generate_excerpt_spec (lit "ab cdef") 5 ltac:(lia))
    as [_ [Hlong _]].
  destruct (Hlong ltac:(vm_compute; reflexivity))
    as [prefix [rest [Hc [Hl [_ [Hbody _]]]]]].
  assert (Hp : prefix = lit "ab cd").
  { assert (Hf : firstn 5 (prefix ++ rest) = firstn 5 (lit "ab cdef"))
      by now rewrite <- Hc.
    rewrite firstn_app in Hf. unfold len in Hl.
    assert (Hlen : List.length prefix = 5%nat) by lia.
    rewrite Hlen, Nat.sub_diag, firstn_O, app_nil_r in Hf.
    rewrite firstn_all2 in Hf by lia. exact Hf. }
  apply (Hbody (lit "ab") (lit "cd")).
  - exact Hp.
  - vm_compute. intros [H|[H|[]]]; discriminate.
Defined.

(** C1 as the specification words it fails: with no space among the first
    three characters of "abcdef" the excerpt is "abc...", which cuts the
    word in two. *)
Lemma excerpt_contract_fails : ~ Spec.excerpt_contract (lit "abcdef") 3.
Proof.
  intros [_ [H _]].
  destruct (H ltac:(vm_compute; reflexivity))
    as [body [rest [He [Hc [Hns _]]]]].
  change (BlogPost.generate_excerpt (lit "abcdef") 3)
    with (lit "abc" ++ lit "...") in He.
  apply app_inv_tail in He. subst body.
  change (lit "abcdef") with (lit "abc" ++ lit "def") in Hc.
  apply app_inv_head in Hc. subst rest.
  apply Hns. exists (lit "ab"), "c"%char, "d"%char, (lit "ef").
  repeat split.
Qed.

End Excerpt.

(** ** The slug generators *)
Section SlugCharacters.

(** The three character facts below are checked on every code point. *)
Ltac each_code_point c :=
  destruct c as [[] [] [] [] [] [] [] []]; vm_compute; intros;
  solve [reflexivity | discriminate | congruence].


Lemma lower_char_not_word (c : ascii) :
  re_word c = false -> lower_char c = c.
Proof. each_code_point c. Qed.



Lemma kept_not_word_is_separator (c : ascii) :
  re_word c = false -> slug_stripped c = false -> slug_separator c = true.
Proof. each_code_point c. Qed.

Lemma hyphen_is_slug_char : Spec.slug_char hyphen = true.
Proof. reflexivity. Qed.

End SlugCharacters.

Section Substitutions.

Variable cls : ascii -> bool.

Lemma re_sub_delete_Forall (P : ascii -> Prop) (s : pystr) :
  Forall (fun c => cls c = false -> P c) s ->
  Forall P (re_sub_delete cls s).
Proof.
  unfold re_sub_delete. induction 1 as [|c r Hc _ IH]; simpl.
  - constructor.
  - destruct (cls c) eqn:E; simpl; [assumption|].
    constructor; [now apply Hc | assumption].
Qed.

Lemma re_sub_delete_kept (s : pystr) :
  Forall (fun c => cls c = false) (re_sub_delete cls s).
Proof.
  unfold re_sub_delete. induction s as [|c r IH]; simpl.
  - constructor.
  - destruct (cls c) eqn:E; simpl; [assumption|].
    constructor; assumption.
Qed.

Lemma re_sub_runs_from_Forall (P : ascii -> Prop) (repl : pystr) (b : bool)
      (s : pystr) :
  Forall P repl ->
  Forall (fun c => cls c = false -> P c) s ->
  Forall P (re_sub_runs_from cls repl b s).
Proof.
  intros Hrepl Hs. revert b.
  induction Hs as [|c r Hc _ IH]; intros b; simpl.
  - constructor.
  - destruct (cls c) eqn:E.
    + apply Forall_app. split; [destruct b; [constructor | assumption] | apply IH].
    + constructor; [now apply Hc | apply IH].
Qed.

(** A text made of class characters only is one run. *)
Lemma re_sub_runs_from_all (repl : pystr) (b : bool) (s : pystr) :
  Forall (fun c => cls c = true) s ->
  re_sub_runs_from cls repl b s =
  match s with
  | [] => []
  | _ :: _ => if b then [] else repl
  end.
Proof.
  intros Hs. revert b. induction Hs as [|c r Hc Hr IH]; intros b; simpl.
  - reflexivity.
  - rewrite Hc, IH. destruct r; destruct b; simpl;
      rewrite ?app_nil_r; reflexivity.
Qed.





Lemma lstrip_Forall (P : ascii -> Prop) (s : pystr) :
  Forall P s -> Forall P (lstrip cls s).
Proof.
  induction 1 as [|c r Hc Hr IH]; simpl.
  - constructor.
  - destruct (cls c); [assumption | now constructor].
Qed.

Lemma lstrip_head (s : pystr) (c : ascii) :
  hd_error (lstrip cls s) = Some c -> cls c = false.
Proof.
  induction s as [|d r IH]; simpl; [discriminate|].
  destruct (cls d) eqn:E; [assumption|].
  simpl. now intros [= <-].
Qed.

Lemma lstrip_keeps_last (s : pystr) (c : ascii) :
  cls c = false -> exists u, lstrip cls (s ++ [c]) = u ++ [c].
Proof.
  intros Hc. induction s as [|d r IH]; simpl.
  - rewrite Hc. now exists [].
  - destruct (cls d); [assumption|]. now exists (d :: r).
Qed.

Lemma strip_Forall (P : ascii -> Prop) (s : pystr) :
  Forall P s -> Forall P (strip cls s).
Proof.
  intros H. unfold strip, rstrip.
  apply Forall_rev, lstrip_Forall, Forall_rev, lstrip_Forall, H.
Qed.

Lemma strip_last (s : pystr) (c : ascii) :
  hd_error (rev (strip cls s)) = Some c -> cls c = false.
Proof.
  unfold strip, rstrip. rewrite rev_involutive. apply lstrip_head.
Qed.

Lemma strip_head (s : pystr) (c : ascii) :
  hd_error (strip cls s) = Some c -> cls c = false.
Proof.
  unfold strip, rstrip.
  destruct (lstrip cls s) as [|d r] eqn:E; simpl; [discriminate|].
  assert (Hd : cls d = false) by (apply (lstrip_head s); now rewrite E).
  destruct (lstrip_keeps_last (rev r) d Hd) as [u Hu].
  rewrite Hu, rev_app_distr. simpl. now intros [= <-].
Qed.

End Substitutions.

Section BaseSlug.



Lemma base_slug_edges (title : pystr) :
  hd_error (BlogPost.base_slug title) <> Some hyphen /\
  hd_error (rev (BlogPost.base_slug title)) <> Some hyphen.
Proof.
  unfold BlogPost.base_slug. split; intros H.
  - apply strip_head in H. discriminate.
  - apply strip_last in H. discriminate.
Qed.

Lemma base_slug_no_word (title : pystr) :
  Forall (fun c => re_word c = false) title ->
  BlogPost.base_slug title = [].
Proof.
  intros Hnw. unfold BlogPost.base_slug, lower.
  assert (Hlow : map lower_char title = title).
  { induction Hnw as [|c r Hc _ IH]; simpl; [reflexivity|].
    now rewrite (lower_char_not_word c Hc), IH. }
  rewrite Hlow.
  assert (Hsep : Forall (fun c => slug_separator c = true)
                        (re_sub_delete slug_stripped title)).
  { pose proof (re_sub_delete_kept slug_stripped title) as Hk.
    assert (Hw : Forall (fun c => re_word c = false)
                        (re_sub_delete slug_stripped title))
      by (apply re_sub_delete_Forall; revert Hnw; apply Forall_impl; auto).
    revert Hk Hw. generalize (re_sub_delete slug_stripped title).
    intros s Hk Hw. induction Hk as [|c r Hc _ IH]; [constructor|].
    inversion Hw; subst. constructor;
      [now apply kept_not_word_is_separator | now apply IH]. }
  unfold re_sub_runs. rewrite (re_sub_runs_from_all _ _ _ _ Hsep).
  destruct (re_sub_delete slug_stripped title); reflexivity.
Qed.

Lemma category_slug_is_base_slug (name : pystr) :
  Category.generate_slug name = BlogPost.base_slug name.
Proof. reflexivity. Qed.

End BaseSlug.

Section SlugLoop.

Lemma candidate_shift (base : pystr) (c : Z) (u : pystr) (j : nat) :
  Spec.candidate base (c + 1) (base ++ lit "-" ++ str_of_int c) j
  = Spec.candidate base c u (S j).
Proof.
  destruct j as [|j]; simpl.
  - now rewrite Z.add_0_r.
  - do 3 f_equal. lia.
Qed.

(** The loop returns the first candidate that no stored post uses. *)
Lemma slug_loop_first_free (n : nat) :
  forall fuel table base c u,
    (n < fuel)%nat ->
    (forall j, (j < n)%nat ->
       BlogPost.first_by_slug table (Spec.candidate base c u j) <> None) ->
    BlogPost.first_by_slug table (Spec.candidate base c u n) = None ->
    BlogPost.slug_loop fuel table base c u = Some (Spec.candidate base c u n).
Proof.
  induction n as [|n IH]; intros fuel table base c u Hf Hused Hfree;
    (destruct fuel as [|fuel]; [lia|]); cbn [BlogPost.slug_loop].
  - simpl in Hfree. now rewrite Hfree.
  - destruct (BlogPost.first_by_slug table u) eqn:E.
    + rewrite <- (candidate_shift base c u). apply IH.
      * lia.
      * intros j Hj. rewrite (candidate_shift base c u). apply Hused. lia.
      * now rewrite (candidate_shift base c u).
    + exfalso. apply (Hused 0%nat); [lia | exact E].
Qed.

Lemma slug_loop_result_free fuel table base c u s :
  BlogPost.slug_loop fuel table base c u = Some s ->
  BlogPost.first_by_slug table s = None.
Proof.
  revert c u. induction fuel as [|fuel IH]; intros c u H; simpl in H.
  - discriminate.
  - destruct (BlogPost.first_by_slug table u) eqn:E.
    + eapply IH, H.
    + now injection H as <-.
Qed.

Lemma slug_loop_exhausted fuel table base c u :
  BlogPost.slug_loop fuel table base c u = None ->
  forall j, (j < fuel)%nat ->
    BlogPost.first_by_slug table (Spec.candidate base c u j) <> None.
Proof.
  revert c u. induction fuel as [|fuel IH]; intros c u H j Hj; [lia|].
  simpl in H. destruct (BlogPost.first_by_slug table u) eqn:E; [|discriminate].
  destruct j as [|j].
  - simpl. now rewrite E.
  - rewrite <- (candidate_shift base c u). apply (IH _ _ H). lia.
Qed.

Lemma str_eqb_eq (a b : pystr) : str_eqb a b = true <-> a = b.
Proof.
  unfold str_eqb. destruct (list_eq_dec ascii_dec a b); split;
    intros; congruence.
Qed.

Lemma first_by_slug_used (table : list BlogPost.t) (s : pystr) :
  BlogPost.first_by_slug table s <> None <->
  In (Some s) (map BlogPost.slug table).
Proof.
  unfold BlogPost.first_by_slug. induction table as [|p t IH]; simpl.
  - split; [congruence | tauto].
  - destruct (BlogPost.slug p) as [s'|] eqn:Es.
    + destruct (str_eqb s' s) eqn:E.
      * apply str_eqb_eq in E. subst. split; [now left | discriminate].
      * rewrite IH. split; [now right|]. intros [H|H]; [|assumption].
        injection H as ->. rewrite (proj2 (str_eqb_eq s s) eq_refl) in E.
        discriminate.
    + rewrite IH. split; [now right|]. intros [H|H]; [discriminate|assumption].
Qed.

Lemma first_by_slug_free (table : list BlogPost.t) (s : pystr) :
  BlogPost.first_by_slug table s = None <->
  ~ In (Some s) (map BlogPost.slug table).
Proof.
  rewrite <- first_by_slug_used.
  destruct (BlogPost.first_by_slug table s); split; intros H;
    try congruence; try tauto.
  exfalso. apply H. discriminate.
Qed.

Lemma lit_injective (a b : string) : lit a = lit b -> a = b.
Proof.
  unfold lit. intros H.
  rewrite <- (string_of_list_ascii_of_string a),
          <- (string_of_list_ascii_of_string b). now rewrite H.
Qed.

Lemma str_of_int_injective (a b : Z) : str_of_int a = str_of_int b -> a = b.
Proof.
  unfold str_of_int. intros H. apply lit_injective in H.
  assert (Hi : Some (Z.to_int a) = Some (Z.to_int b))
    by (rewrite <- !NilEmpty.isi; now rewrite H).
  injection Hi as Hi.
  rewrite <- (DecimalZ.of_to a), <- (DecimalZ.of_to b). now rewrite Hi.
Qed.

Lemma candidate_injective (base : pystr) (i j : nat) :
  Spec.candidate base 1 base i = Spec.candidate base 1 base j -> i = j.
Proof.
  destruct i as [|i], j as [|j]; cbn [Spec.candidate]; intros H.
  - reflexivity.
  - exfalso. rewrite <- (app_nil_r base) in H at 1.
    apply app_inv_head in H. discriminate.
  - exfalso. symmetry in H. rewrite <- (app_nil_r base) in H at 1.
    apply app_inv_head in H. discriminate.
  - apply app_inv_head, app_inv_head in H.
    apply str_of_int_injective in H. lia.
Qed.

Lemma NoDup_map_seq {A : Type} (f : nat -> A) (n : nat) :
  (forall i j, f i = f j -> i = j) -> NoDup (map f (seq 0 n)).
Proof.
  intros Hinj. generalize 0%nat. induction n as [|n IH]; intros a; simpl.
  - constructor.
  - constructor; [|apply IH].
    rewrite in_map_iff. intros [i [Hi Hin]]. apply Hinj in Hi.
    apply in_seq in Hin. lia.
Qed.

(** The loop of [generate_slug] ends: more fuel than stored posts gives a
    slug, and no stored post has it. *)
Lemma generate_slug_terminates (fuel : nat) (table : list BlogPost.t)
      (title : pystr) :
  (List.length table < fuel)%nat ->
  exists s, BlogPost.generate_slug fuel table title = Some s /\
            ~ In (Some s) (map BlogPost.slug table).
Proof.
  intros Hf. unfold BlogPost.generate_slug.
  destruct (BlogPost.slug_loop fuel table (BlogPost.base_slug title) 1
                               (BlogPost.base_slug title)) as [s|] eqn:E.
  - exists s. split; [reflexivity|].
    apply first_by_slug_free. eapply slug_loop_result_free, E.
  - exfalso.
    pose proof (slug_loop_exhausted _ _ _ _ _ E) as Hall.
    set (base := BlogPost.base_slug title) in *.
    assert (Hincl : incl (map (fun j => Some (Spec.candidate base 1 base j))
                              (seq 0 fuel))
                         (map BlogPost.slug table)).
    { intros x Hx. apply in_map_iff in Hx. destruct Hx as [j [<- Hj]].
      apply first_by_slug_used, Hall. apply in_seq in Hj. lia. }
    assert (Hnd : NoDup (map (fun j => Some (Spec.candidate base 1 base j))
                             (seq 0 fuel))).
    { apply NoDup_map_seq. intros i j [= H].
      now apply candidate_injective in H. }
    pose proof (NoDup_incl_length Hnd Hincl) as Hlen.
    rewrite !length_map, length_seq in Hlen. lia.
Qed.

End SlugLoop.

Section SlugClaims.





Lemma init_keeps_generated_slug (fuel : nat) (table : list BlogPost.t)
      (now : Z) (kw : BlogPost.t) (title s : pystr) :
  BlogPost.title kw = Some title -> title <> [] ->
  truthy (BlogPost.slug kw) = false ->
  BlogPost.generate_slug fuel table title = Some s ->
  exists p, BlogPost.init fuel table now kw = Some p /\
            BlogPost.slug p = Some s.
Proof.
  intros Ht Hne Hs Hg. unfold BlogPost.init. rewrite Ht.
  destruct title as [|c r]; [congruence|]. rewrite Hs, Hg. simpl.
  eexists. split; [reflexivity|].
  repeat match goal with
         | |- context [match ?x with _ => _ end] => destruct x; simpl
         end; reflexivity.
Qed.

Lemma slugs_after_add (table : list BlogPost.t) (now : Z) (p : BlogPost.t) :
  map BlogPost.slug (BlogPost.add table now p)
  = map BlogPost.slug table ++ [BlogPost.slug p].
Proof. unfold BlogPost.add. now rewrite map_app. Qed.

(** C6, as the code has it.  Two posts of one non-empty title, created in
    sequence against the same collection without an explicit slug, get two
    different slugs; when neither the base slug nor the base slug followed
    by [-1] is in use beforehand, the first post gets the base slug and the
    second the base slug followed by [-1]. *)
Theorem same_title_slugs (fuel : nat) (table : list BlogPost.t)
        (t1 t1' t2 : Z) (kw1 kw2 : BlogPost.t) (title : pystr) :
  title <> [] ->
  BlogPost.title kw1 = Some title -> BlogPost.title kw2 = Some title ->
  truthy (BlogPost.slug kw1) = false -> truthy (BlogPost.slug kw2) = false ->
  (List.length table + 1 < fuel)%nat ->
  exists p1 p2,
    Spec.create_two fuel table t1 t1' t2 kw1 kw2 = Some (p1, p2) /\
    BlogPost.slug p1 <> BlogPost.slug p2 /\
    (~ In (Some (BlogPost.base_slug title)) (map BlogPost.slug table) ->
     ~ In (Some (BlogPost.base_slug title ++ lit "-1"))
          (map BlogPost.slug table) ->
     BlogPost.slug p1 = Some (BlogPost.base_slug title) /\
     BlogPost.slug p2 = Some (BlogPost.base_slug title ++ lit "-1")).
Proof.
  intros Hne Ht1 Ht2 Hs1 Hs2 Hfuel.
  destruct (generate_slug_terminates fuel table title ltac:(lia))
    as [s1 [Hg1 Hfree1]].
  destruct (init_keeps_generated_slug fuel table t1 kw1 title s1
              Ht1 Hne Hs1 Hg1) as [p1 [Hi1 Hp1]].
  set (table' := BlogPost.add table t1' p1).
  assert (Hlen : (List.length table' < fuel)%nat)
    by (unfold table', BlogPost.add; rewrite length_app; simpl; lia).
  destruct (generate_slug_terminates fuel table' title Hlen)
    as [s2 [Hg2 Hfree2]].
  destruct (init_keeps_generated_slug fuel table' t2 kw2 title s2
              Ht2 Hne Hs2 Hg2) as [p2 [Hi2 Hp2]].
  exists p1, p2. split; [|split].
  - unfold Spec.create_two. rewrite Hi1. fold table'. now rewrite Hi2.
  - rewrite Hp1, Hp2. intros [= ->]. apply Hfree2.
    unfold table'. rewrite slugs_after_add, Hp1. apply in_or_app.
    right. now left.
  - intros Hbase Hbase1.
    set (base := BlogPost.base_slug title) in *.
    assert (E1 : BlogPost.generate_slug fuel table title = Some base).
    { apply (slug_loop_first_free 0 fuel table base 1 base); [lia | |].
      - intros j Hj. lia.
      - now apply first_by_slug_free. }
    assert (Hs1' : s1 = base) by congruence. subst s1.
    assert (E2 : BlogPost.generate_slug fuel table' title
                 = Some (base ++ lit "-1")).
    { apply (slug_loop_first_free 1 fuel table' base 1 base); [lia | |].
      - intros j Hj. assert (j = 0%nat) by lia. subst j.
        apply first_by_slug_used. unfold table'.
        rewrite slugs_after_add, Hp1. apply in_or_app. right. now left.
      - apply first_by_slug_free. unfold table'.
        rewrite slugs_after_add, Hp1. intros Hin.
        apply in_app_or in Hin. destruct Hin as [Hin|[Hin|[]]].
        + exact (Hbase1 Hin).
        + injection Hin as Hin. rewrite <- (app_nil_r base) in Hin at 1.
          apply app_inv_head in Hin. discriminate. }
    split; [assumption | congruence].
Qed.

Lemma same_title_slugs_witness :
  exists p1 p2,
    Spec.create_two 3 [] 10 11 20 Sample.hello_kw Sample.hello_kw = Some (p1, p2) /\
    BlogPost.slug p1 = Some (lit "hello-world") /\
    BlogPost.slug p2 = Some (lit "hello-world-1").
Proof.
  destruct (same_title_slugs 3 [] 10 11 20 Sample.hello_kw Sample.hello_kw
              (lit "Hello World"))
    as [p1 [p2 [Hc [_ Hb]]]];
    try reflexivity; try discriminate; try (simpl; lia).
  exists p1, p2. split; [exact Hc|].
  apply Hb; simpl; tauto.
Defined.

(** C6 as the specification words it fails: when a stored post already
    has the slug "hello-world", two further posts titled "Hello World" get
    "hello-world-1" and "hello-world-2". *)
Lemma same_title_contract_fails :
  ~ Spec.same_title_contract [BlogPost.set_slug Sample.hello_kw (Some (lit "hello-world"))]
      (lit "Hello World").
Proof.
  intros H.
  destruct (H 5%nat 10 11 20 Sample.hello_kw Sample.hello_kw
              (BlogPost.set_read_time
                 (BlogPost.set_excerpt
                    (BlogPost.set_slug Sample.hello_kw (Some (lit "hello-world-1")))
                    (Some (lit "Some text.")))
                 (Some (lit "1 min read")))
              (BlogPost.set_read_time
                 (BlogPost.set_excerpt
                    (BlogPost.set_slug Sample.hello_kw (Some (lit "hello-world-2")))
                    (Some (lit "Some text.")))
                 (Some (lit "1 min read")))
              eq_refl eq_refl eq_refl eq_refl) as [_ H2].
  - vm_compute. reflexivity.
  - vm_compute in H2. discriminate.
Qed.

End SlugClaims.

Section DegenerateSlugs.

(** C10, as the code has it.  A title or name without any word character
    (letter, digit or underscore) has the empty base slug under both
    generators.  When it is not the empty string, a Category constructed
    from it without a slug gets the empty slug, and a Post constructed from
    it without a slug gets the first of "", "-1", "-2", ... that no stored
    post uses: the empty slug when it is free, and "-k" when "", "-1", ...,
    "-(k-1)" are all in use. *)
Theorem slug_of_stripped_title (title : pystr) :
  Forall (fun c => re_word c = false) title ->
  BlogPost.base_slug title = [] /\
  Category.generate_slug title = [] /\
  (title <> [] ->
   (forall kw,
      Category.name kw = Some title -> truthy (Category.slug kw) = false ->
      Category.slug (Category.init kw) = Some []) /\
   (forall fuel table now kw (k : nat),
      BlogPost.title kw = Some title -> truthy (BlogPost.slug kw) = false ->
      (k < fuel)%nat ->
      (forall j, (j < k)%nat ->
         In (Some (Spec.candidate [] 1 [] j)) (map BlogPost.slug table)) ->
      ~ In (Some (Spec.candidate [] 1 [] k)) (map BlogPost.slug table) ->
      exists p, BlogPost.init fuel table now kw = Some p /\
                BlogPost.slug p = Some (Spec.candidate [] 1 [] k))).
Proof.
  intros Hnw. pose proof (base_slug_no_word title Hnw) as Hbase.
  split; [exact Hbase|]. split; [exact Hbase|].
  intros Hne. split.
  - intros kw Hn Hs. unfold Category.init. rewrite Hn.
    destruct title as [|c r]; [congruence|]. rewrite Hs. simpl.
    f_equal. exact Hbase.
  - intros fuel table now kw k Ht Hs Hk Hused Hfree.
    apply (init_keeps_generated_slug fuel table now kw title); try assumption.
    unfold BlogPost.generate_slug. rewrite Hbase.
    apply slug_loop_first_free; [exact Hk | |].
    + intros j Hj. apply first_by_slug_used. now apply Hused.
    + now apply first_by_slug_free.
Qed.

Lemma slug_of_stripped_title_witness :
  BlogPost.base_slug (lit "!!!") = [] /\
  Category.slug (Category.init (Sample.category_kw (lit "!!!"))) = Some [] /\
  exists p,
    BlogPost.init 3
      [BlogPost.set_slug Sample.hello_kw (Some []);
       BlogPost.set_slug Sample.hello_kw (Some (lit "-1"))]
      7 (Sample.post_kw (lit "!!!") (lit "Some text.")) = Some p /\
    BlogPost.slug p = Some (lit "-2").
Proof.
  destruct (slug_of_stripped_title (lit "!!!")) as [Hb [_ Hrest]].
  - repeat constructor.
  - destruct (Hrest ltac:(discriminate)) as [Hcat Hpost].
    split; [exact Hb|]. split.
    + apply Hcat; reflexivity.
    + apply (Hpost 3%nat _ 7 _ 2%nat); try reflexivity; try lia.
      * intros j Hj. assert (Hj' : j = 0%nat \/ j = 1%nat) by lia.
        destruct Hj' as [-> | ->]; simpl; tauto.
      * simpl. intros [H|[H|[]]]; discriminate.
Defined.

(** C10 as it is worded fails for categories: [Category.generate_slug]
    has no collision loop, so the category "???" constructed after the
    category "!!!" gets the empty slug again, not "-1". *)
Lemma stripped_names_contract_fails :
  ~ Spec.stripped_names_contract (lit "!!!") (lit "???").
Proof. intros [_ H]. vm_compute in H. discriminate. Qed.

(** Three posts titled "!!!" created in sequence from the empty table get
    the slugs "", "-1" and "-2". *)
Example three_stripped_titles :
  let kw := Sample.post_kw (lit "!!!") (lit "Some text.") in
  let create table now :=
    match BlogPost.init 5 table now kw with
    | Some p => BlogPost.add table now p
    | None => table
    end in
  map BlogPost.slug (create (create (create [] 1) 2) 3)
  = [Some []; Some (lit "-1"); Some (lit "-2")].
Proof. vm_compute. reflexivity. Qed.

(** C2, at the input where the code leaves the claim: after the category
    "Web Dev" is stored, the category "web dev" (another name) is
    constructed with the slug "web-dev" again, not with "web-dev-1":
    [Category.generate_slug] never looks at the stored categories. *)
Theorem category_slug_collides :
  let first := Category.init (Sample.category_kw (lit "Web Dev")) in
  let table := Category.add [] 0 first in
  let second := Category.init (Sample.category_kw (lit "web dev")) in
  Category.name second <> Category.name first /\
  Category.slug second = Some (lit "web-dev") /\
  In (Category.slug second) (map Category.slug table) /\
  Category.slug second <> Some (lit "web-dev-1").
Proof.
  vm_compute. repeat split; try discriminate. now left.
Qed.

End DegenerateSlugs.

(** ** The read-time estimator *)
Section ReadTime.

Lemma split_from_gap (gap s : pystr) :
  Forall (fun c => isspace c = true) gap ->
  split_from [] (gap ++ s) = split_from [] s.
Proof.
  induction 1 as [|c g Hc _ IH]; simpl; [reflexivity|]. now rewrite Hc.
Qed.

Lemma split_from_word (w cur s : pystr) :
  Forall (fun c => isspace c = false) w ->
  split_from cur (w ++ s) = split_from (rev w ++ cur) s.
Proof.
  intros Hw. revert cur. induction Hw as [|c r Hc _ IH]; intros cur; simpl.
  - reflexivity.
  - rewrite Hc, IH, <- app_assoc. reflexivity.
Qed.

Lemma rev_not_nil (w : pystr) : w <> [] -> rev w <> [].
Proof.
  intros Hw E. apply Hw. rewrite <- (rev_involutive w), E. reflexivity.
Qed.

(** [split] returns the whitespace-delimited words. *)
Lemma tokens_split (content : pystr) (words : list pystr) :
  Spec.tokens content words -> split content = words.
Proof.
  unfold split. induction 1 as [gap Hg | gap w Hg Hne Hw
                               | gap w sp rest ws Hg Hne Hw Hsp _ IH].
  - rewrite <- (app_nil_r gap), split_from_gap by assumption. reflexivity.
  - rewrite split_from_gap by assumption.
    pose proof (split_from_word w [] [] Hw) as Hsplit.
    rewrite !app_nil_r in Hsplit. rewrite Hsplit. simpl.
    destruct (rev w) eqn:E; [now apply rev_not_nil in E|].
    rewrite <- E, rev_involutive. reflexivity.
  - rewrite split_from_gap by assumption.
    rewrite split_from_word by assumption.
    rewrite app_nil_r. simpl. rewrite Hsp.
    destruct (rev w) eqn:E; [now apply rev_not_nil in E|].
    rewrite <- E, rev_involutive, IH. reflexivity.
Qed.

Lemma tokens_space (c : ascii) (content : pystr) (words : list pystr) :
  isspace c = true -> Spec.tokens content words ->
  Spec.tokens (c :: content) words.
Proof.
  intros Hc H.
  destruct H as [gap Hg | gap w Hg Hne Hw
                | gap w sp rest ws Hg Hne Hw Hsp Hrest].
  - apply Spec.tokens_end. now constructor.
  - apply (Spec.tokens_last (c :: gap)); try assumption. now constructor.
  - apply (Spec.tokens_word (c :: gap)); try assumption. now constructor.
Qed.

Lemma tokens_letter (c : ascii) (content : pystr) (words : list pystr) :
  isspace c = false -> Spec.tokens content words ->
  exists words', Spec.tokens (c :: content) words'.
Proof.
  intros Hc H.
  assert (H1 : Forall (fun x => isspace x = false) [c]) by now constructor.
  destruct H as [gap Hg | gap w Hg Hne Hw
                | gap w sp rest ws Hg Hne Hw Hsp Hrest].
  - destruct gap as [|sp g].
    + exists [[c]]. apply (Spec.tokens_last [] [c]);
        [constructor | discriminate | assumption].
    + inversion Hg; subst. exists [[c]].
      apply (Spec.tokens_word [] [c] sp g []);
        [constructor | discriminate | assumption | assumption |].
      now apply Spec.tokens_end.
  - destruct gap as [|sp g].
    + exists [c :: w]. apply (Spec.tokens_last [] (c :: w));
        [constructor | discriminate | now constructor].
    + inversion Hg; subst. exists [[c]; w].
      apply (Spec.tokens_word [] [c] sp (g ++ w) [w]);
        [constructor | discriminate | assumption | assumption |].
      now apply Spec.tokens_last.
  - destruct gap as [|sp' g].
    + exists ((c :: w) :: ws).
      apply (Spec.tokens_word [] (c :: w) sp rest ws);
        [constructor | discriminate | now constructor | assumption
         | assumption].
    + inversion Hg; subst. exists ([c] :: w :: ws).
      apply (Spec.tokens_word [] [c] sp' (g ++ w ++ sp :: rest) (w :: ws));
        [constructor | discriminate | assumption | assumption |].
      now apply Spec.tokens_word.
Qed.

(** Every content reads as a sequence of words, the one [split] returns. *)
Lemma split_tokens (content : pystr) : Spec.tokens content (split content).
Proof.
  assert (H : exists words, Spec.tokens content words).
  { induction content as [|c r [ws IH]].
    - exists []. apply Spec.tokens_end. constructor.
    - destruct (isspace c) eqn:E.
      + exists ws. now apply tokens_space.
      + now apply (tokens_letter c r ws). }
  destruct H as [ws H]. now rewrite (tokens_split _ _ H).
Qed.

(** C8.  For a content read as its whitespace-delimited words, the label
    is "<minutes> min read" where the minutes are the number of words
    divided by 200 (integer division) and at least 1: "1 min read" up to 199
    words and "2 min read" for 400 words. *)
Theorem calculate_read_time_label (content : pystr) (words : list pystr) :
  Spec.tokens content words ->
  BlogPost.calculate_read_time content
  = str_of_int (Z.max 1 (Z.of_nat (List.length words) / 200))
    ++ lit " min read" /\
  ((List.length words <= 199)%nat ->
     BlogPost.calculate_read_time content = lit "1 min read") /\
  (List.length words = 400%nat ->
     BlogPost.calculate_read_time content = lit "2 min read").
Proof.
  intros Htok. unfold BlogPost.calculate_read_time, BlogPost.word_count.
  rewrite (tokens_split _ _ Htok). split; [reflexivity|]. split.
  - intros Hle.
    assert (Hq : Z.of_nat (List.length words) / 200 = 0)
      by (apply Z.div_small; lia).
    rewrite Hq. reflexivity.
  - intros ->. reflexivity.
Qed.

Lemma calculate_read_time_label_witness :
  BlogPost.calculate_read_time (lit " one two  three ") = lit "1 min read".
Proof.
  destruct (calculate_read_time_label (lit " one two  three ")
              (split (lit " one two  three ")) (split_tokens _))
    as [_ [Hshort _]].
  apply Hshort. simpl. lia.
Defined.

(** A content of 400 words, and one of 1000 words. *)
Example read_time_of_400_words :
  BlogPost.calculate_read_time (concat (repeat (lit "word ") 400))
  = lit "2 min read" /\
  BlogPost.calculate_read_time (concat (repeat (lit "word ") 1000))
  = lit "5 min read".
Proof. split; vm_compute; reflexivity. Qed.

End ReadTime.

(** ** Live search *)
Section LiveSearch.

Lemma lstrip_length (cls : ascii -> bool) (s : pystr) :
  (List.length (lstrip cls s) <= List.length s)%nat.
Proof.
  induction s as [|c r IH]; simpl; [lia|].
  destruct (cls c); simpl; lia.
Qed.

Lemma strip_ws_len (s : pystr) : len (strip_ws s) <= len s.
Proof.
  unfold strip_ws, strip, rstrip, len. rewrite length_rev.
  pose proof (lstrip_length isspace (rev (lstrip isspace s))) as H1.
  pose proof (lstrip_length isspace s) as H2.
  rewrite length_rev in H1. lia.
Qed.

(** C9.  For a search term of fewer than 3 characters, the empty term
    included, and for a body without the key, [api_search] answers the
    empty result list, does not fail, and sends no statement to the
    database. *)
Theorem api_search_short_term (s : App.Store) (term : pystr) :
  len term < 3 ->
  App.api_search s (Some (App.JString term)) = (App.Ok [], []) /\
  App.api_search s None = (App.Ok [], []).
Proof.
  intros Hlen. split; [|reflexivity].
  unfold App.api_search. pose proof (strip_ws_len term) as Hs.
  assert (Hlt : (len (strip_ws term) <? 3) = true) by (apply Z.ltb_lt; lia).
  rewrite Hlt, orb_true_r. reflexivity.
Qed.

Lemma api_search_short_term_witness :
  App.api_search (App.mkStore [] [Sample.hello_kw] [])
                 (Some (App.JString (lit "He")))
  = (App.Ok [], []).
Proof.
  apply (api_search_short_term (App.mkStore [] [Sample.hello_kw] [])
                               (lit "He")).
  vm_compute. reflexivity.
Defined.

(** A term of three characters reaches the database. *)
Example api_search_long_term :
  let post := Sample.post_of (lit "Hello World") (lit "Some text.")
                             (lit "Some text.") in
  App.api_search (App.mkStore (App.categories Sample.store) [post] [])
                 (Some (App.JString (lit "hel")))
  = (App.Ok [post], [App.Select (lit "blog_post")]).
Proof. vm_compute. reflexivity. Qed.

(** A selected row without excerpt makes the request fail. *)
Example api_search_without_excerpt :
  App.api_search (App.mkStore (App.categories Sample.store)
                              [Sample.hello_kw] [])
                 (Some (App.JString (lit "hel")))
  = (App.Raise, [App.Select (lit "blog_post")]).
Proof. vm_compute. reflexivity. Qed.

End LiveSearch.

(** ** The free-text search filter *)
Section SearchFilter.

Lemma like_percent (p text : pystr) :
  Sql.pattern_compare ("%"%char :: p) text
  = Sql.pattern_compare p text
    || match text with
       | [] => false
       | _ :: text' => Sql.pattern_compare ("%"%char :: p) text'
       end.
Proof. destruct text; reflexivity. Qed.


Lemma like_any_run (p text : pystr) :
  Sql.pattern_compare ("%"%char :: p) text = true <->
  exists a b, text = a ++ b /\ Sql.pattern_compare p b = true.
Proof.
  induction text as [|c t IH]; rewrite like_percent.
  - rewrite orb_false_r. split.
    + intros H. now exists [], [].
    + intros [a [b [Hab H]]]. symmetry in Hab.
      apply app_eq_nil in Hab. destruct Hab as [_ ->]. exact H.
  - rewrite orb_true_iff, IH. split.
    + intros [H | [a [b [-> H]]]].
      * now exists [], (c :: t).
      * now exists (c :: a), b.
    + intros [[|d a] [b [Hab H]]]; simpl in Hab.
      * left. now subst b.
      * right. injection Hab as -> ->. now exists a, b.
Qed.




Lemma c_string_plain (s : pystr) :
  Forall (fun c => is_code 0 c = false) s -> Sql.c_string s = s.
Proof.
  induction 1 as [|c r Hc _ IH]; cbn [Sql.c_string]; [reflexivity|].
  now rewrite Hc, IH.
Qed.

Lemma utf8_len_app (a b : pystr) :
  Sql.utf8_len (a ++ b) = Sql.utf8_len a + Sql.utf8_len b.
Proof.
  unfold Sql.utf8_len. induction a as [|c a IH]; cbn [app fold_right].
  - reflexivity.
  - rewrite IH. lia.
Qed.

Lemma pattern_of_term (term : pystr) :
  Forall (fun c => is_code 0 c = false) term ->
  Sql.utf8_len term <= 49998 ->
  Sql.too_complex (lit "%" ++ term ++ lit "%") = false /\
  Sql.c_string (lit "%" ++ term ++ lit "%") = lit "%" ++ term ++ lit "%".
Proof.
  intros Hnul Hlen. split.
  - unfold Sql.too_complex, Sql.pattern_limit. apply Z.ltb_ge.
    rewrite !utf8_len_app.
    change (Sql.utf8_len (lit "%")) with 1. lia.
  - apply c_string_plain. apply Forall_app. split; [repeat constructor|].
    apply Forall_app. split; [exact Hnul | repeat constructor].
Qed.

(** What [contains] computes for a pattern that is accepted. *)
Lemma contains_accepted (term : pystr) (field : option pystr) :
  Forall (fun c => is_code 0 c = false) term ->
  Sql.utf8_len term <= 49998 ->
  Sql.contains field term
  = Some (option_map
            (fun text =>
               Sql.pattern_compare (lit "%" ++ term ++ lit "%")
                                   (Sql.c_string text)) field).
Proof.
  intros Hnul Hlen. destruct (pattern_of_term term Hnul Hlen) as [Hc Hs].
  unfold Sql.contains, Sql.like. cbv zeta. rewrite Hc.
  destruct field as [text|]; [|reflexivity].
  cbn [option_map]. now rewrite Hs.
Qed.

Lemma search_filter_accepted (term : pystr) (p : BlogPost.t) :
  Forall (fun c => is_code 0 c = false) term ->
  Sql.utf8_len term <= 49998 ->
  App.search_filter term p
  = Some (Sql.holds
            (Sql.or3
               (Sql.or3
                  (option_map
                     (fun text =>
                        Sql.pattern_compare (lit "%" ++ term ++ lit "%")
                                            (Sql.c_string text))
                     (BlogPost.title p))
                  (option_map
                     (fun text =>
                        Sql.pattern_compare (lit "%" ++ term ++ lit "%")
                                            (Sql.c_string text))
                     (BlogPost.content p)))
               (option_map
                  (fun text =>
                     Sql.pattern_compare (lit "%" ++ term ++ lit "%")
                                         (Sql.c_string text))
                  (BlogPost.excerpt p)))).
Proof.
  intros Hnul Hlen. unfold App.search_filter, App.search_clause.
  rewrite !(contains_accepted term _ Hnul Hlen). reflexivity.
Qed.







(** What LIKE does beyond the amended claim.  A term of three U+0000 is read
    as the empty term and selects every post with a title; the part of a
    field after a U+0000 is not searched; and a term of more than 49998
    bytes makes the statement fail. *)
Example search_filter_nul_term :
  App.search_filter [chr 0; chr 0; chr 0]
    (Sample.post_of (lit "abc") (lit "xyz") (lit "xyz"))
  = Some true.
Proof. vm_compute. reflexivity. Qed.

Example search_filter_nul_field :
  App.search_filter (lit "cde")
    (Sample.post_of (lit "ab" ++ [chr 0] ++ lit "cdef") (lit "xyz")
                    (lit "xyz"))
  = Some false.
Proof. vm_compute. reflexivity. Qed.

Example search_filter_long_term :
  App.search_filter (repeat "a"%char (Z.to_nat 49999))
    (Sample.post_of (lit "abc") (lit "xyz") (lit "xyz"))
  = None.
Proof. vm_compute. reflexivity. Qed.

End SearchFilter.

(** ** Comments and their threads *)
Section CommentThreads.

(** A comment created by [api_add_comment] has no parent. *)
Lemma api_add_comment_top_level (s s' : App.Store) (now user : Z)
      (post_id : option Z) (content : option pystr) (c : Comment.t) :
  App.api_add_comment s now user post_id content = (App.Ok c, s') ->
  Comment.parent_id c = None /\
  App.comments s' = App.comments s ++ [c].
Proof.
  unfold App.api_add_comment.
  destruct (negb (truthy (Some (strip_ws match content with
                                         | Some c0 => c0
                                         | None => []
                                         end)))); [discriminate|].
  destruct (match post_id with
            | Some i =>
                if App.sqlite_integer i
                then App.get_or_404 (App.posts s) post_id
                else App.Raise
            | None => App.get_or_404 (App.posts s) post_id
            end); try discriminate.
  intros [= <- <-]. split; reflexivity.
Qed.

Lemma api_add_comment_refused (s s' : App.Store) (now user : Z)
      (post_id : option Z) (content : option pystr)
      (out : App.Outcome Comment.t) :
  App.api_add_comment s now user post_id content = (out, s') ->
  (forall c, out <> App.Ok c) -> s' = s.
Proof.
  unfold App.api_add_comment.
  destruct (negb (truthy (Some (strip_ws match content with
                                         | Some c0 => c0
                                         | None => []
                                         end)))); [now intros [= <- <-]|].
  destruct (match post_id with
            | Some i =>
                if App.sqlite_integer i
                then App.get_or_404 (App.posts s) post_id
                else App.Raise
            | None => App.get_or_404 (App.posts s) post_id
            end);
    intros [= <- <-] H; try reflexivity.
  exfalso. eapply H. reflexivity.
Qed.

Lemma comment_step_keeps_threads (s s' : App.Store) :
  Spec.threads_on_one_post (App.comments s) ->
  Spec.comment_step s s' ->
  Spec.threads_on_one_post (App.comments s').
Proof.
  intros Hinv [now user post_id content out Hstep].
  destruct out as [c | st |].
  - destruct (api_add_comment_top_level _ _ _ _ _ _ _ Hstep) as [Hp Hc].
    rewrite Hc. intros x Hx pid Hpid. apply in_app_or in Hx.
    destruct Hx as [Hx | [<- | []]].
    + destruct (Hinv x Hx pid Hpid) as [parent [Hin Hsame]].
      exists parent. split; [apply in_or_app; now left | exact Hsame].
    + congruence.
  - rewrite (api_add_comment_refused _ _ _ _ _ _ _ Hstep); [exact Hinv|].
    discriminate.
  - rewrite (api_add_comment_refused _ _ _ _ _ _ _ Hstep); [exact Hinv|].
    discriminate.
Qed.

(** C4.  When every reply among the stored comments has its parent on the
    same post, this still holds after any number of comment-creating
    requests: [api_add_comment], the only operation that creates a
    comment, stores top-level comments only. *)
Theorem threads_stay_on_one_post (s s' : App.Store) :
  Spec.threads_on_one_post (App.comments s) ->
  Spec.comment_steps s s' ->
  Spec.threads_on_one_post (App.comments s').
Proof.
  intros Hinv Hsteps. induction Hsteps as [s | s s' s'' _ IH Hstep].
  - exact Hinv.
  - eapply comment_step_keeps_threads; [apply IH, Hinv | exact Hstep].
Qed.

Lemma sample_thread_ok : Spec.threads_on_one_post Sample.thread.
Proof.
  intros c [<- | [<- | []]] pid Hpid; simpl in Hpid; [discriminate|].
  injection Hpid as <-. eexists. split; [left; reflexivity|].
  split; reflexivity.
Qed.

Lemma threads_stay_on_one_post_witness :
  Spec.threads_on_one_post
    (App.comments
       (snd (App.api_add_comment
               (App.mkStore [] [BlogPost.stored [] 3 Sample.hello_kw]
                            Sample.thread)
               9 1 (Some 1) (Some (lit " Nice post. "))))).
Proof.
  apply (threads_stay_on_one_post
           (App.mkStore [] [BlogPost.stored [] 3 Sample.hello_kw]
                        Sample.thread)).
  - exact sample_thread_ok.
  - eapply Spec.steps_next; [apply Spec.steps_refl|].
    eapply (Spec.step_add_comment _ _ 9 1 (Some 1)
                                  (Some (lit " Nice post. "))).
    apply surjective_pairing.
Defined.

End CommentThreads.

(** ** The publication timestamp *)
Section PublicationTimestamp.

Ltac init_cases :=
  repeat match goal with
         | |- context [truthy ?x] =>
             is_var x; destruct x as [[|? ?]|]; simpl
         | |- context [match ?x with _ => _ end] =>
             is_var x; destruct x; simpl
         end.

(** The constructor leaves [published] as it was passed, and sets the
    publication timestamp to the construction time exactly when it was
    passed [published=True] and no timestamp. *)
Lemma init_publication (fuel : nat) (table : list BlogPost.t)
      (now : Z) (kw p : BlogPost.t) :
  BlogPost.init fuel table now kw = Some p ->
  BlogPost.published p = BlogPost.published kw /\
  BlogPost.date_published p
  = (match BlogPost.published kw, BlogPost.date_published kw with
     | Some true, None => Some now
     | _, d => d
     end).
Proof.
  unfold BlogPost.init.
  destruct (match BlogPost.title kw with
            | Some (c :: r) =>
                if negb (truthy (BlogPost.slug kw))
                then option_map (fun s => BlogPost.set_slug kw (Some s))
                       (BlogPost.generate_slug fuel table (c :: r))
                else Some kw
            | _ => Some kw
            end) as [q|] eqn:E; [|discriminate].
  assert (Hq : BlogPost.published q = BlogPost.published kw /\
               BlogPost.date_published q = BlogPost.date_published kw).
  { destruct (BlogPost.title kw) as [[|c r]|]; try (injection E as <-; tauto).
    destruct (negb (truthy (BlogPost.slug kw)));
      [|injection E as <-; tauto].
    destruct (BlogPost.generate_slug fuel table (c :: r));
      [|discriminate]. injection E as <-. simpl. tauto. }
  destruct Hq as [Hq1 Hq2]. intros [= <-]. clear E.
  destruct q; simpl in Hq1, Hq2; subst; simpl. init_cases.
  all: destruct (BlogPost.published kw) as [[|]|];
    destruct (BlogPost.date_published kw); simpl; split; reflexivity.
Qed.

(** The constructor dates a post that is passed [published=True] and no
    publication timestamp. *)
Lemma init_dates_published_post (fuel : nat) (table : list BlogPost.t)
      (now : Z) (kw p : BlogPost.t) :
  BlogPost.published kw = Some true ->
  BlogPost.date_published kw = None ->
  BlogPost.init fuel table now kw = Some p ->
  BlogPost.date_published p = Some now.
Proof.
  intros Hpub Hdate Hinit.
  destruct (init_publication _ _ _ _ _ Hinit) as [_ H].
  now rewrite H, Hpub, Hdate.
Qed.

(** No post created through [create_post] is dated: the handler does not
    pass [published], so the constructor sees [None], while the row is
    stored as published by the column default. *)
Lemma create_post_leaves_undated (fuel : nat) (s s' : App.Store)
      (t_init t_flush user : Z) (form : BlogPostForm.t) (p : BlogPost.t) :
  App.create_post fuel s t_init t_flush user form
  = Some (App.Redirect p, s') ->
  BlogPost.published p = Some true /\ BlogPost.date_published p = None.
Proof.
  unfold App.create_post.
  destruct (BlogPostForm.validate _ form); [|discriminate].
  match goal with
  | |- context [BlogPost.init fuel (App.posts s) t_init ?k] =>
      set (kw := k)
  end.
  destruct (BlogPost.init fuel (App.posts s) t_init kw) as [q|] eqn:E;
    [|discriminate].
  destruct (truthy (Some (BlogPostForm.tags form))
            && App.repeats (App.tag_names (BlogPostForm.tags form)));
    [discriminate|].
  unfold BlogPost.insert.
  destruct (BlogPost.accepted _ _); [|discriminate].
  intros [= <- _]. destruct (init_publication _ _ _ _ _ E) as [Hp Hd].
  simpl. rewrite Hp, Hd. split; reflexivity.
Qed.

(** C3, at the input where the code leaves the claim: the valid form
    [Sample.form], with "Publish Now" ticked, submitted at time 100 and
    stored at time 101.  The post is stored as published and with no
    publication timestamp. *)
Theorem create_post_published_undated :
  exists p s',
    App.create_post 1 Sample.store 100 101 1 Sample.form
    = Some (App.Redirect p, s') /\
    App.posts s' = [p] /\
    BlogPost.slug p = Some (lit "hello-world") /\
    BlogPost.published p = Some true /\
    BlogPost.date_created p = Some 101 /\
    BlogPost.date_published p = None.
Proof.
  eexists. eexists. split; [vm_compute; reflexivity|].
  repeat split.
Qed.

End PublicationTimestamp.

(** ** Further properties of the slug generators *)
Section SlugShape.

Ltac all_code_points c :=
  destruct c as [[] [] [] [] [] [] [] []]; vm_compute; intros;
  solve [repeat split; reflexivity | discriminate | congruence].

Lemma kept_is_slug_letter (c : ascii) :
  slug_stripped (lower_char c) = false ->
  slug_separator (lower_char c) = false ->
  Inv.slug_letter (lower_char c) = true.
Proof. all_code_points c. Qed.

Lemma slug_letter_facts (c : ascii) :
  Inv.slug_letter c = true ->
  lower_char c = c /\ slug_stripped c = false /\ slug_separator c = false.
Proof. all_code_points c. Qed.

Lemma separator_not_letter (c : ascii) :
  slug_separator c = true -> Inv.slug_letter c = false.
Proof. all_code_points c. Qed.

Lemma is_hyphen (c : ascii) : is_code 45 c = true -> c = hyphen.
Proof. all_code_points c. Qed.

Lemma base_slug_elements (title : pystr) :
  Forall Inv.slug_element (BlogPost.base_slug title).
Proof.
  unfold BlogPost.base_slug.
  apply strip_Forall, re_sub_runs_from_Forall.
  - repeat constructor.
  - unfold lower.
    assert (Hkept : Forall (fun c => slug_stripped c = false ->
                                     slug_separator c = false ->
                                     Inv.slug_element c)
                           (map lower_char title)).
    { apply Forall_map, Forall_forall. intros c _ H1 H2. right.
      now apply kept_is_slug_letter. }
    revert Hkept. generalize (map lower_char title). intros s Hs.
    unfold re_sub_delete. induction Hs as [|c r Hc _ IH]; cbn [filter].
    + constructor.
    + destruct (slug_stripped c) eqn:E; cbn [negb]; [assumption|].
      constructor; [now apply Hc | assumption].
Qed.

Lemma double_hyphen_test (s : pystr) :
  Inv.double_hyphen s <-> Inv.has_double_hyphen s = true.
Proof.
  split.
  - intros [a [b ->]]. induction a as [|c a IH]; simpl.
    + reflexivity.
    + rewrite IH. apply orb_true_r.
  - induction s as [|c r IH]; simpl; [discriminate|].
    intros H. apply orb_true_iff in H. destruct H as [H|H].
    + apply andb_true_iff in H. destruct H as [Hc Hd].
      destruct r as [|d r]; [discriminate|].
      apply is_hyphen in Hc, Hd. subst. now exists [], r.
    + destruct (IH H) as [a [b ->]]. now exists (c :: a), b.
Qed.

Lemma runs_no_double_hyphen (b : bool) (s : pystr) :
  Inv.has_double_hyphen (re_sub_runs_from slug_separator (lit "-") b s)
  = false
  /\ (b = true ->
      hd_error (re_sub_runs_from slug_separator (lit "-") b s)
      <> Some hyphen).
Proof.
  revert b. induction s as [|c r IH]; intros b;
    cbn [re_sub_runs_from].
  - split; [reflexivity | discriminate].
  - destruct (slug_separator c) eqn:E.
    + destruct (IH true) as [Hn Hh]. specialize (Hh eq_refl).
      destruct b.
      * split; [exact Hn | intros _; exact Hh].
      * change (lit "-" ++ re_sub_runs_from slug_separator (lit "-") true r)
          with (hyphen :: re_sub_runs_from slug_separator (lit "-") true r).
        split; [|discriminate].
        cbn [Inv.has_double_hyphen]. rewrite Hn, orb_false_r.
        destruct (re_sub_runs_from slug_separator (lit "-") true r)
          as [|d o]; [reflexivity|].
        destruct (is_code 45 d) eqn:Ed; [|reflexivity].
        apply is_hyphen in Ed. subst d. now elim Hh.
    + destruct (IH false) as [Hn _]. split.
      * cbn [Inv.has_double_hyphen]. rewrite Hn, orb_false_r.
        assert (Hc : is_code 45 c = false).
        { destruct (is_code 45 c) eqn:Ec; [|reflexivity].
          apply is_hyphen in Ec. subst c. discriminate. }
        now rewrite Hc.
      * intros _ [= ->]. discriminate.
Qed.

Lemma lstrip_suffix (cls : ascii -> bool) (s : pystr) :
  exists x, s = x ++ lstrip cls s.
Proof.
  induction s as [|c r [x IH]]; simpl.
  - now exists [].
  - destruct (cls c); [|now exists []].
    exists (c :: x). simpl. now rewrite <- IH.
Qed.

Lemma strip_infix (cls : ascii -> bool) (s : pystr) :
  exists x y, s = x ++ strip cls s ++ y.
Proof.
  unfold strip, rstrip. destruct (lstrip_suffix cls s) as [x Hx].
  destruct (lstrip_suffix cls (rev (lstrip cls s))) as [y Hy].
  exists x, (rev y). rewrite <- rev_app_distr, <- Hy, rev_involutive.
  exact Hx.
Qed.

Lemma base_slug_no_double_hyphen (title : pystr) :
  ~ Inv.double_hyphen (BlogPost.base_slug title).
Proof.
  unfold BlogPost.base_slug.
  set (runs := re_sub_runs slug_separator (lit "-")
                 (re_sub_delete slug_stripped (lower title))).
  intros [a [b Hab]]. destruct (strip_infix (is_code 45) runs) as [x [y Hxy]].
  assert (Hd : Inv.double_hyphen runs).
  { exists (x ++ a), (b ++ y). rewrite Hxy, Hab.
    now rewrite <- !app_assoc. }
  apply double_hyphen_test in Hd. unfold runs, re_sub_runs in Hd.
  destruct (runs_no_double_hyphen false
              (re_sub_delete slug_stripped (lower title))) as [Hn _].
  congruence.
Qed.

(** X1.  Whatever the title or name, the base slug of both generators is
    made of hyphens and of lower-case word characters other than the
    underscore; it holds no whitespace, never two hyphens in a row, and
    neither starts nor ends with a hyphen. *)
Theorem base_slug_shape (title : pystr) :
  let s := BlogPost.base_slug title in
  Category.generate_slug title = s /\
  Forall (fun c => c = hyphen \/ Inv.slug_letter c = true) s /\
  Forall (fun c => isspace c = false /\ c <> underscore) s /\
  ~ Inv.double_hyphen s /\
  hd_error s <> Some hyphen /\ hd_error (rev s) <> Some hyphen.
Proof.
  cbv zeta. split; [reflexivity|]. split; [apply base_slug_elements|].
  split; [|split; [apply base_slug_no_double_hyphen | apply base_slug_edges]].
  pose proof (base_slug_elements title) as H. revert H.
  apply Forall_impl. intros c [-> | Hc].
  - split; [reflexivity | discriminate].
  - destruct (slug_letter_facts c Hc) as [_ [_ Hsep]].
    unfold slug_separator in Hsep.
    apply orb_false_elim in Hsep. destruct Hsep as [Hsep _].
    apply orb_false_elim in Hsep. destruct Hsep as [Hsp Hu].
    split; [exact Hsp | intros ->; discriminate].
Qed.

Lemma runs_of_slug (b : bool) (s : pystr) :
  Forall Inv.slug_element s ->
  Inv.has_double_hyphen s = false ->
  (b = true -> hd_error s <> Some hyphen) ->
  re_sub_runs_from slug_separator (lit "-") b s = s.
Proof.
  intros Hel. revert b. induction Hel as [|c r Hc _ IH]; intros b Hn Hb.
  - reflexivity.
  - simpl in Hn. apply orb_false_elim in Hn. destruct Hn as [Hcd Hn].
    simpl. destruct Hc as [-> | Hc].
    + change (slug_separator hyphen) with true. cbv iota.
      destruct b; [now elim (Hb eq_refl)|].
      simpl. f_equal. apply IH; [exact Hn|].
      intros _ Hh. destruct r as [|d r]; [discriminate|].
      injection Hh as ->. discriminate.
    + destruct (slug_letter_facts c Hc) as [_ [_ Hsep]]. rewrite Hsep.
      f_equal. apply IH; [exact Hn | discriminate].
Qed.

Lemma lstrip_nothing (cls : ascii -> bool) (s : pystr) :
  (forall c, hd_error s = Some c -> cls c = false) -> lstrip cls s = s.
Proof.
  destruct s as [|c r]; simpl; [reflexivity|].
  intros H. now rewrite (H c eq_refl).
Qed.

(** X2.  The slug of a slug is that slug: [base_slug] applied to what it
    returned changes nothing. *)
Theorem base_slug_idempotent (title : pystr) :
  BlogPost.base_slug (BlogPost.base_slug title) = BlogPost.base_slug title.
Proof.
  pose proof (base_slug_elements title) as Hel.
  pose proof (base_slug_no_double_hyphen title) as Hnd.
  destruct (base_slug_edges title) as [Hhd Hlast].
  set (s := BlogPost.base_slug title) in *.
  unfold BlogPost.base_slug at 1.
  assert (Hlow : lower s = s).
  { unfold lower. clear Hnd Hhd Hlast.
    induction Hel as [|c r Hc _ IH]; simpl; [reflexivity|].
    rewrite IH. f_equal. destruct Hc as [-> | Hc]; [reflexivity|].
    apply (slug_letter_facts c Hc). }
  assert (Hdel : re_sub_delete slug_stripped s = s).
  { unfold re_sub_delete. clear Hnd Hhd Hlast Hlow.
    induction Hel as [|c r Hc _ IH]; simpl; [reflexivity|].
    assert (Hs : slug_stripped c = false).
    { destruct Hc as [-> | Hc]; [reflexivity|].
      apply (slug_letter_facts c Hc). }
    rewrite Hs. simpl. now rewrite IH. }
  assert (Hruns : re_sub_runs slug_separator (lit "-") s = s).
  { apply runs_of_slug; [exact Hel | | discriminate].
    destruct (Inv.has_double_hyphen s) eqn:E; [|reflexivity].
    apply double_hyphen_test in E. contradiction. }
  rewrite Hlow, Hdel, Hruns. unfold strip, rstrip.
  assert (Hl : lstrip (is_code 45) s = s).
  { apply lstrip_nothing. intros c Hc.
    destruct (is_code 45 c) eqn:E; [|reflexivity].
    apply is_hyphen in E. subst c. contradiction. }
  rewrite Hl.
  assert (Hr : lstrip (is_code 45) (rev s) = rev s).
  { apply lstrip_nothing. intros c Hc.
    destruct (is_code 45 c) eqn:E; [|reflexivity].
    apply is_hyphen in E. subst c. contradiction. }
  rewrite Hr. apply rev_involutive.
Qed.

End SlugShape.

Section SlugFreshness.

Lemma slug_loop_some (fuel : nat) (table : list BlogPost.t) (base : pystr) :
  forall c u s,
    BlogPost.slug_loop fuel table base c u = Some s ->
    exists k, (k < fuel)%nat /\ s = Spec.candidate base c u k /\
      (forall j, (j < k)%nat ->
         BlogPost.first_by_slug table (Spec.candidate base c u j) <> None) /\
      BlogPost.first_by_slug table (Spec.candidate base c u k) = None.
Proof.
  induction fuel as [|fuel IH]; intros c u s H; [discriminate|].
  cbn [BlogPost.slug_loop] in H.
  destruct (BlogPost.first_by_slug table u) eqn:E.
  - destruct (IH _ _ _ H) as [k [Hk [Hs [Hused Hfree]]]].
    exists (S k). rewrite <- (candidate_shift base c u).
    split; [lia|]. split; [exact Hs|]. split; [|exact Hfree].
    intros [|j] Hj.
    + simpl. now rewrite E.
    + rewrite <- (candidate_shift base c u). apply Hused. lia.
  - injection H as <-. exists 0%nat. split; [lia|]. split; [reflexivity|].
    split; [intros j Hj; lia | exact E].
Qed.

(** X3.  With more fuel than stored posts, the slug loop ends and returns
    the first of base, base-1, base-2, ... that no stored post uses; it
    gets there after at most as many collisions as there are stored
    posts. *)
Theorem generate_slug_first_free (fuel : nat) (table : list BlogPost.t)
        (title : pystr) :
  (List.length table < fuel)%nat ->
  exists k,
    (k <= List.length table)%nat /\
    BlogPost.generate_slug fuel table title
    = Some (Spec.candidate (BlogPost.base_slug title) 1
                           (BlogPost.base_slug title) k) /\
    ~ In (Some (Spec.candidate (BlogPost.base_slug title) 1
                               (BlogPost.base_slug title) k))
         (map BlogPost.slug table) /\
    (forall j, (j < k)%nat ->
       In (Some (Spec.candidate (BlogPost.base_slug title) 1
                                (BlogPost.base_slug title) j))
          (map BlogPost.slug table)).
Proof.
  intros Hfuel.
  destruct (generate_slug_terminates fuel table title Hfuel) as [s [Hs _]].
  set (base := BlogPost.base_slug title) in *.
  destruct (slug_loop_some fuel table base 1 base s Hs)
    as [k [_ [-> [Hused Hfree]]]].
  exists k. split; [|split; [exact Hs | split]].
  - assert (Hincl : incl (map (fun j => Some (Spec.candidate base 1 base j))
                              (seq 0 k))
                         (map BlogPost.slug table)).
    { intros x Hx. apply in_map_iff in Hx. destruct Hx as [j [<- Hj]].
      apply first_by_slug_used, Hused. apply in_seq in Hj. lia. }
    assert (Hnd : NoDup (map (fun j => Some (Spec.candidate base 1 base j))
                             (seq 0 k))).
    { apply NoDup_map_seq. intros i j [= H].
      now apply candidate_injective in H. }
    pose proof (NoDup_incl_length Hnd Hincl) as Hlen.
    rewrite !length_map, length_seq in Hlen. exact Hlen.
  - now apply first_by_slug_free.
  - intros j Hj. now apply first_by_slug_used, Hused.
Qed.

Lemma generate_slug_first_free_witness :
  exists k,
    (k <= 1)%nat /\
    BlogPost.generate_slug 2
      [BlogPost.set_slug Sample.hello_kw (Some (lit "hello-world"))]
      (lit "Hello World")
    = Some (Spec.candidate (lit "hello-world") 1 (lit "hello-world") k).
Proof.
  destruct (generate_slug_first_free 2
              [BlogPost.set_slug Sample.hello_kw (Some (lit "hello-world"))]
              (lit "Hello World")) as [k [Hk [Hs _]]].
  - simpl. lia.
  - exists k. split; [exact Hk | exact Hs].
Defined.

End SlugFreshness.

(** ** Further properties of the excerpt and of the constructor *)
Section ExcerptAndInit.

Lemma rsplit1_head_prefix (sep : ascii) (s : pystr) :
  exists rest, s = rsplit1_head sep s ++ rest.
Proof.
  unfold rsplit1_head. destruct (before_last sep s) as [p|] eqn:E.
  - destruct (before_last_some _ _ _ E) as [tail [-> _]].
    now exists (sep :: tail).
  - exists []. now rewrite app_nil_r.
Qed.

Lemma slice_to_prefix (s : pystr) (n : Z) :
  exists rest, s = slice_to s n ++ rest.
Proof.
  unfold slice_to. destruct (n <? 0);
    eexists; symmetry; apply firstn_skipn.
Qed.

(** X4.  Whatever the content and the maximum, negative ones included,
    the excerpt is the content itself or a prefix of the content followed
    by the ellipsis; with a negative maximum it always is the latter, the
    prefix then having at most [len(content) + maximum] characters, and
    none when that is negative. *)
Theorem generate_excerpt_prefix (content : pystr) (length : Z) :
  exists body rest,
    content = body ++ rest /\
    (BlogPost.generate_excerpt content length = content \/
     BlogPost.generate_excerpt content length = body ++ lit "...") /\
    (length < 0 ->
     BlogPost.generate_excerpt content length = body ++ lit "..." /\
     len body <= Z.max 0 (len content + length)).
Proof.
  destruct (slice_to_prefix content length) as [r1 H1].
  destruct (rsplit1_head_prefix space (slice_to content length)) as [r2 H2].
  exists (rsplit1_head space (slice_to content length)), (r2 ++ r1).
  split; [rewrite app_assoc, <- H2; exact H1|].
  unfold BlogPost.generate_excerpt.
  destruct (len content <=? length) eqn:E.
  - split; [now left|]. intros Hneg. apply Z.leb_le in E.
    pose proof (len_nonneg content). lia.
  - split; [now right|]. intros Hneg. split; [reflexivity|].
    pose proof (rsplit1_head_length space (slice_to content length)) as Hl.
    assert (Hs : len (slice_to content length)
                 <= Z.max 0 (len content + length)).
    { unfold slice_to. apply Z.ltb_lt in Hneg. rewrite Hneg.
      unfold len. rewrite length_firstn. lia. }
    unfold len in *. lia.
Qed.

Lemma generate_excerpt_bounded (content : pystr) :
  content <> [] ->
  BlogPost.generate_excerpt content BlogPost.default_excerpt_length <> [] /\
  len (BlogPost.generate_excerpt content BlogPost.default_excerpt_length)
  <= 153.
Proof.
  intros Hne. unfold BlogPost.generate_excerpt, BlogPost.default_excerpt_length.
  destruct (len content <=? 150) eqn:E.
  - apply Z.leb_le in E. split; [exact Hne | lia].
  - split.
    + intros H. apply app_eq_nil in H. destruct H as [_ H]. discriminate.
    + rewrite len_app, lit_ellipsis_len.
      pose proof (rsplit1_head_length space (slice_to content 150)) as Hl.
      assert (Hs : len (slice_to content 150) <= 150).
      { rewrite slice_to_firstn by lia. unfold len.
        rewrite length_firstn. lia. }
      unfold len in *. lia.
Qed.

Lemma init_closed_form (fuel : nat) (table : list BlogPost.t) (now : Z)
      (kw p : BlogPost.t) :
  BlogPost.init fuel table now kw = Some p ->
  exists s,
    p = BlogPost.mk (BlogPost.id kw) (BlogPost.title kw)
          (BlogPost.content kw) (Inv.derived_excerpt kw) s
          (BlogPost.meta_description kw) (BlogPost.featured_image kw)
          (BlogPost.published kw) (BlogPost.featured kw)
          (BlogPost.allow_comments kw) (Inv.derived_read_time kw)
          (BlogPost.view_count kw) (BlogPost.date_created kw)
          (BlogPost.date_modified kw) (Inv.derived_date now kw)
          (BlogPost.author_id kw) (BlogPost.category_id kw) /\
    (truthy (BlogPost.slug kw) = true -> s = BlogPost.slug kw).
Proof.
  unfold BlogPost.init, Inv.derived_excerpt, Inv.derived_read_time,
    Inv.derived_date.
  destruct kw as [i t c e s md fi pub fe ac rt vc dc dm dp au ca].
  cbn -[truthy].
  set (kw := BlogPost.mk i t c e s md fi pub fe ac rt vc dc dm dp au ca).
  destruct (match t with
            | Some (a :: r) =>
                if negb (truthy s)
                then option_map (fun g => BlogPost.set_slug kw (Some g))
                       (BlogPost.generate_slug fuel table (a :: r))
                else Some kw
            | _ => Some kw
            end) as [q|] eqn:E; [|discriminate].
  assert (Hq : exists s',
             q = BlogPost.mk i t c e s' md fi pub fe ac rt vc dc dm dp
                             au ca /\
             (truthy s = true -> s' = s)).
  { destruct t as [[|a t]|]; try (injection E as <-; now exists s).
    destruct (truthy s); simpl in E; [injection E as <-; now exists s|].
    destruct (BlogPost.generate_slug fuel table (a :: t)) as [g|];
      [|discriminate]. injection E as <-. exists (Some g).
    split; [reflexivity | discriminate]. }
  destruct Hq as [s' [-> Hs']]. clear E kw. intros [= <-].
  exists s'. split; [|exact Hs'].
  destruct c as [[|b c]|]; cbn -[truthy];
    destruct (truthy e); cbn -[truthy];
    destruct (truthy rt); cbn -[truthy];
    destruct pub as [[|]|]; destruct dp; reflexivity.
Qed.

Lemma init_without_fuel (fuel : nat) (table : list BlogPost.t) (now : Z)
      (kw : BlogPost.t) :
  truthy (BlogPost.slug kw) = true ->
  BlogPost.init fuel table now kw = BlogPost.init 0 table now kw.
Proof.
  intros Hs. unfold BlogPost.init. rewrite Hs. reflexivity.
Qed.

(** X5.  The constructor never changes what it was given: the title, the
    content, the flags, the author and the category stay as passed, and so
    do a slug, an excerpt and a read time that are not empty and a
    publication timestamp that is set.  With a slug that is not empty it
    needs no fuel, since the table is not queried. *)
Theorem init_keeps_supplied (fuel : nat) (table : list BlogPost.t) (now : Z)
        (kw p : BlogPost.t) :
  BlogPost.init fuel table now kw = Some p ->
  (BlogPost.id p = BlogPost.id kw /\
   BlogPost.title p = BlogPost.title kw /\
   BlogPost.content p = BlogPost.content kw /\
   BlogPost.published p = BlogPost.published kw /\
   BlogPost.featured p = BlogPost.featured kw /\
   BlogPost.author_id p = BlogPost.author_id kw /\
   BlogPost.category_id p = BlogPost.category_id kw) /\
  (truthy (BlogPost.slug kw) = true ->
   BlogPost.slug p = BlogPost.slug kw /\
   BlogPost.init 0 table now kw = Some p) /\
  (truthy (BlogPost.excerpt kw) = true ->
   BlogPost.excerpt p = BlogPost.excerpt kw) /\
  (truthy (BlogPost.read_time kw) = true ->
   BlogPost.read_time p = BlogPost.read_time kw) /\
  (BlogPost.date_published kw <> None ->
   BlogPost.date_published p = BlogPost.date_published kw).
Proof.
  intros Hinit.
  destruct (init_closed_form _ _ _ _ _ Hinit) as [s [Hp Hs]].
  split; [rewrite Hp; repeat split|]. split; [|split; [|split]].
  - intros Ht. split; [rewrite Hp; simpl; now apply Hs|].
    now rewrite <- (init_without_fuel fuel).
  - intros He. rewrite Hp. simpl. unfold Inv.derived_excerpt.
    rewrite He. now destruct (BlogPost.content kw) as [[|? ?]|].
  - intros Hr. rewrite Hp. simpl. unfold Inv.derived_read_time.
    rewrite Hr. now destruct (BlogPost.content kw) as [[|? ?]|].
  - intros Hd. rewrite Hp. simpl. unfold Inv.derived_date.
    destruct (BlogPost.published kw) as [[|]|];
      destruct (BlogPost.date_published kw); congruence.
Qed.

Lemma init_keeps_supplied_witness :
  exists p,
    BlogPost.init 0 []  7
      (BlogPost.set_slug Sample.hello_kw (Some (lit "my-own-slug")))
    = Some p /\ BlogPost.slug p = Some (lit "my-own-slug").
Proof.
  eexists. split; [reflexivity|].
  destruct (init_keeps_supplied 0 [] 7
              (BlogPost.set_slug Sample.hello_kw (Some (lit "my-own-slug")))
              _ eq_refl) as [_ [Hslug _]].
  apply Hslug. reflexivity.
Defined.

(** X6.  A post constructed with a content that is not empty and without
    excerpt and read time gets an excerpt that is not empty and has at most
    153 characters, and the read time computed from its content.  A post
    constructed with the empty content or without content gets neither.
    With the empty content, the row that an accepted INSERT stores has the
    excerpt as passed and the read time of the column default,
    "5 min read", unless one was passed.  Without content no row is
    stored: the column is NOT NULL and the INSERT is refused. *)
Theorem init_fills_derived (fuel : nat) (table : list BlogPost.t) (now : Z)
        (kw p : BlogPost.t) :
  BlogPost.init fuel table now kw = Some p ->
  truthy (BlogPost.excerpt kw) = false ->
  truthy (BlogPost.read_time kw) = false ->
  (forall content,
     BlogPost.content kw = Some content -> content <> [] ->
     BlogPost.read_time p = Some (BlogPost.calculate_read_time content) /\
     exists e, BlogPost.excerpt p = Some e /\ e <> [] /\ len e <= 153) /\
  (BlogPost.content kw = Some [] ->
   BlogPost.excerpt p = BlogPost.excerpt kw /\
   BlogPost.read_time p = BlogPost.read_time kw /\
   forall table' t table'',
     BlogPost.insert table' t p = Some table'' ->
     exists row,
       table'' = table' ++ [row] /\
       BlogPost.content row = Some [] /\
       BlogPost.excerpt row = BlogPost.excerpt kw /\
       BlogPost.read_time row
       = or_default (BlogPost.read_time kw) (lit "5 min read")) /\
  (BlogPost.content kw = None ->
   BlogPost.excerpt p = BlogPost.excerpt kw /\
   BlogPost.read_time p = BlogPost.read_time kw /\
   forall table' t, BlogPost.insert table' t p = None).
Proof.
  intros Hinit He Hr.
  destruct (init_closed_form _ _ _ _ _ Hinit) as [s [Hp _]].
  rewrite Hp. unfold Inv.derived_excerpt, Inv.derived_read_time.
  rewrite He, Hr. split; [|split].
  - intros content -> Hne. destruct content as [|b content]; [congruence|].
    split; [reflexivity|]. eexists. split; [reflexivity|].
    apply generate_excerpt_bounded. discriminate.
  - intros Hc. rewrite Hc. cbn [BlogPost.excerpt BlogPost.read_time].
    split; [reflexivity|]. split; [reflexivity|].
    intros table' t table'' Hins. unfold BlogPost.insert in Hins.
    destruct (BlogPost.accepted table' _); [|discriminate].
    injection Hins as <-. eexists. split; [reflexivity|].
    cbn [BlogPost.stored BlogPost.content BlogPost.excerpt
         BlogPost.read_time]. repeat split.
  - intros Hc. rewrite Hc. cbn [BlogPost.excerpt BlogPost.read_time].
    split; [reflexivity|]. split; [reflexivity|].
    intros table' t. unfold BlogPost.insert, BlogPost.accepted.
    cbn [BlogPost.stored BlogPost.title BlogPost.content].
    destruct (BlogPost.title kw); reflexivity.
Qed.

Lemma init_fills_derived_witness :
  exists p,
    BlogPost.init 1 [] 7 Sample.hello_kw = Some p /\
    BlogPost.read_time p = Some (lit "1 min read") /\
    BlogPost.excerpt p = Some (lit "Some text.").
Proof.
  eexists. split; [reflexivity|].
  destruct (init_fills_derived 1 [] 7 Sample.hello_kw _ eq_refl
              eq_refl eq_refl) as [H _].
  destruct (H (lit "Some text.") eq_refl ltac:(discriminate))
    as [Hr _].
  split; [exact Hr | reflexivity].
Defined.

(** A post constructed without content is not stored. *)
Example post_without_content :
  option_map (BlogPost.insert [] 8)
    (BlogPost.init 1 [] 7
       (BlogPost.mk None (Some (lit "Hello")) None None None None None None
                    None None None None None None None (Some 1) (Some 1)))
  = Some None.
Proof. vm_compute. reflexivity. Qed.

End ExcerptAndInit.

(** ** Stored posts and comments *)
Section StoredRows.

Lemma max_id_bound (ids : list (option Z)) (i : Z) :
  In (Some i) ids ->
  i <= fold_right (fun o m => match o with
                              | Some j => Z.max j m
                              | None => m
                              end) 0 ids.
Proof.
  induction ids as [|o ids IH]; simpl; [tauto|].
  intros [-> | H]; [lia|]. specialize (IH H). destruct o; lia.
Qed.

Lemma next_id_fresh (ids : list (option Z)) (i : Z) :
  In (Some i) ids -> i < next_id ids.
Proof.
  intros H. unfold next_id. pose proof (max_id_bound ids i H). lia.
Qed.

Lemma keys_In {A : Type} (col : list (option A)) (a : A) :
  In a (Inv.keys col) <-> In (Some a) col.
Proof.
  unfold Inv.keys. rewrite in_flat_map. split.
  - intros [[b|] [Hin Hb]]; simpl in Hb; [|tauto].
    destruct Hb as [-> | []]. exact Hin.
  - intros H. exists (Some a). split; [exact H | now left].
Qed.

Lemma keys_snoc {A : Type} (col : list (option A)) (o : option A) :
  Inv.keys (col ++ [o])
  = Inv.keys col ++ match o with Some a => [a] | None => [] end.
Proof.
  unfold Inv.keys. rewrite flat_map_app. simpl. now rewrite app_nil_r.
Qed.

Lemma NoDup_snoc {A : Type} (l : list A) (a : A) :
  NoDup l -> ~ In a l -> NoDup (l ++ [a]).
Proof.
  intros Hl Ha. apply NoDup_rev in Hl. rewrite <- (rev_involutive (l ++ [a])).
  apply NoDup_rev. rewrite rev_app_distr. simpl. constructor; [|exact Hl].
  now rewrite <- in_rev.
Qed.

Lemma find_snoc {A : Type} (f : A -> bool) (l : list A) (x : A) :
  find f (l ++ [x])
  = match find f l with
    | Some y => Some y
    | None => if f x then Some x else None
    end.
Proof.
  induction l as [|y l IH]; simpl; [reflexivity|].
  destruct (f y); [reflexivity | exact IH].
Qed.

Lemma find_by_id_none (table : list BlogPost.t) (i : Z) :
  ~ In (Some i) (map BlogPost.id table) ->
  find (fun p => match BlogPost.id p with
                 | Some j => j =? i
                 | None => false
                 end) table = None.
Proof.
  intros H. destruct (find _ table) as [p|] eqn:E; [|reflexivity].
  apply find_some in E. destruct E as [Hin Hp]. exfalso. apply H.
  apply in_map_iff. exists p. split; [|exact Hin].
  destruct (BlogPost.id p) as [j|]; [|discriminate].
  apply Z.eqb_eq in Hp. now subst.
Qed.

Lemma init_generated (fuel : nat) (table : list BlogPost.t) (now : Z)
      (kw q : BlogPost.t) (title : pystr) :
  BlogPost.title kw = Some title -> title <> [] ->
  truthy (BlogPost.slug kw) = false ->
  BlogPost.init fuel table now kw = Some q ->
  exists g, BlogPost.generate_slug fuel table title = Some g /\
            BlogPost.slug q = Some g.
Proof.
  intros Ht Hne Hs Hinit.
  destruct (BlogPost.generate_slug fuel table title) as [g|] eqn:E.
  - exists g. split; [reflexivity|].
    destruct (init_keeps_generated_slug fuel table now kw title g
                Ht Hne Hs E) as [q' [Hq' Hslug]].
    congruence.
  - exfalso. unfold BlogPost.init in Hinit. rewrite Ht in Hinit.
    destruct title as [|c r]; [congruence|].
    rewrite Hs, E in Hinit. discriminate.
Qed.

Lemma data_required_nonempty (data : pystr) :
  BlogPostForm.data_required data = true -> data <> [].
Proof. intros H ->. discriminate. Qed.

(** What a successful [create_post] has done. *)
Lemma create_post_stored (fuel : nat) (s s' : App.Store)
      (t_init t_flush user : Z) (form : BlogPostForm.t) (p : BlogPost.t) :
  App.create_post fuel s t_init t_flush user form
  = Some (App.Redirect p, s') ->
  s' = App.mkStore (App.categories s) (App.posts s ++ [p]) (App.comments s)
  /\ BlogPost.id p = Some (next_id (map BlogPost.id (App.posts s)))
  /\ (exists g,
        BlogPost.generate_slug fuel (App.posts s) (BlogPostForm.title form)
        = Some g /\ BlogPost.slug p = Some g)
  /\ BlogPost.title p = Some (BlogPostForm.title form)
  /\ BlogPostForm.title form <> [].
Proof.
  unfold App.create_post.
  destruct (BlogPostForm.validate _ form) eqn:Hv; [|discriminate].
  match goal with
  | |- context [BlogPost.init fuel (App.posts s) t_init ?k] =>
      set (kw := k)
  end.
  destruct (BlogPost.init fuel (App.posts s) t_init kw) as [q|] eqn:E;
    [|discriminate].
  destruct (truthy (Some (BlogPostForm.tags form))
            && App.repeats (App.tag_names (BlogPostForm.tags form)));
    [discriminate|].
  unfold BlogPost.insert.
  destruct (BlogPost.accepted _ _); [|discriminate].
  intros [= <- <-].
  assert (Hne : BlogPostForm.title form <> []).
  { unfold BlogPostForm.validate in Hv.
    repeat (apply andb_true_iff in Hv; destruct Hv as [Hv ?]).
    now apply data_required_nonempty. }
  destruct (init_closed_form _ _ _ _ _ E) as [sl [Hq _]].
  destruct (init_generated fuel (App.posts s) t_init kw q
              (BlogPostForm.title form) eq_refl Hne eq_refl E)
    as [g [Hg Hslug]].
  split; [reflexivity|]. split; [rewrite Hq; reflexivity|].
  split; [exists g; split; [exact Hg | exact Hslug]|].
  split; [rewrite Hq; reflexivity | exact Hne].
Qed.

(** A request that does not end in the redirection stores nothing. *)
Lemma create_post_not_stored (fuel : nat) (s s' : App.Store)
      (t_init t_flush user : Z) (form : BlogPostForm.t) (page : App.Page) :
  App.create_post fuel s t_init t_flush user form = Some (page, s') ->
  (forall p, page <> App.Redirect p) -> s' = s.
Proof.
  unfold App.create_post.
  destruct (BlogPostForm.validate _ form); [|now intros [= _ <-]].
  destruct (BlogPost.init _ _ _ _); [|discriminate].
  destruct (truthy (Some (BlogPostForm.tags form))
            && App.repeats (App.tag_names (BlogPostForm.tags form)));
    [now intros [= _ <-]|].
  destruct (BlogPost.insert _ _ _); [|now intros [= _ <-]].
  intros [= <- _] H. now elim (H _ eq_refl).
Qed.

Lemma next_id_unused (table : list BlogPost.t) :
  existsb (fun q => match BlogPost.id q with
                    | Some j => j =? next_id (map BlogPost.id table)
                    | None => false
                    end) table = false.
Proof.
  destruct (existsb _ table) eqn:E; [|reflexivity].
  apply existsb_exists in E. destruct E as [q [Hin Hq]].
  destruct (BlogPost.id q) as [j|] eqn:Ej; [|discriminate].
  apply Z.eqb_eq in Hq.
  assert (Hj : In (Some j) (map BlogPost.id table))
    by (rewrite <- Ej; now apply in_map).
  apply next_id_fresh in Hj. lia.
Qed.

(** The INSERT of [create_post] is never refused: the form has supplied
    the title and the content, the identifier is new, and the slug loop has
    returned a slug that is not in use.  The request fails only on a tag
    name given twice. *)
Lemma create_post_server_error (fuel : nat) (s s' : App.Store)
      (t_init t_flush user : Z) (form : BlogPostForm.t) :
  App.create_post fuel s t_init t_flush user form
  = Some (App.ServerError, s') ->
  BlogPostForm.tags form <> [] /\
  App.repeats (App.tag_names (BlogPostForm.tags form)) = true.
Proof.
  unfold App.create_post.
  destruct (BlogPostForm.validate _ form) eqn:Hv; [|discriminate].
  match goal with
  | |- context [BlogPost.init fuel (App.posts s) t_init ?k] =>
      set (kw := k)
  end.
  destruct (BlogPost.init fuel (App.posts s) t_init kw) as [q|] eqn:E;
    [|discriminate].
  destruct (truthy (Some (BlogPostForm.tags form))
            && App.repeats (App.tag_names (BlogPostForm.tags form))) eqn:Et.
  - intros _. apply andb_true_iff in Et. destruct Et as [Ht Hr].
    split; [|exact Hr]. intros Hnil. rewrite Hnil in Ht. discriminate.
  - assert (Hne : BlogPostForm.title form <> []).
    { unfold BlogPostForm.validate in Hv.
      repeat (apply andb_true_iff in Hv; destruct Hv as [Hv ?]).
      now apply data_required_nonempty. }
    destruct (init_closed_form _ _ _ _ _ E) as [sl [Hq _]].
    destruct (init_generated fuel (App.posts s) t_init kw q
                (BlogPostForm.title form) eq_refl Hne eq_refl E)
      as [g [Hg Hslug]].
    assert (Hacc : BlogPost.accepted (App.posts s)
                     (BlogPost.stored (App.posts s) t_flush q) = true).
    { unfold BlogPost.accepted.
      cbn [BlogPost.stored BlogPost.title BlogPost.content
           BlogPost.author_id BlogPost.category_id BlogPost.id
           BlogPost.slug].
      rewrite Hslug.
      unfold BlogPost.generate_slug in Hg.
      rewrite (slug_loop_result_free _ _ _ _ _ _ Hg).
      rewrite Hq.
      cbn [BlogPost.title BlogPost.content BlogPost.author_id
           BlogPost.category_id BlogPost.id kw or_default].
      now rewrite next_id_unused. }
    unfold BlogPost.insert. rewrite Hacc. discriminate.
Qed.

(** X7.  After [create_post] has stored a post, looking its identifier up
    with [get_or_404] returns that post; the identifier was not in use
    before, and every other identifier is answered as before. *)
Theorem create_post_then_lookup (fuel : nat) (s s' : App.Store)
        (t_init t_flush user : Z) (form : BlogPostForm.t) (p : BlogPost.t) :
  App.create_post fuel s t_init t_flush user form
  = Some (App.Redirect p, s') ->
  exists i,
    BlogPost.id p = Some i /\
    App.get_or_404 (App.posts s') (Some i) = App.Ok p /\
    App.get_or_404 (App.posts s) (Some i) = App.Abort 404 /\
    (forall j, j <> i ->
       App.get_or_404 (App.posts s') (Some j)
       = App.get_or_404 (App.posts s) (Some j)).
Proof.
  intros H. destruct (create_post_stored _ _ _ _ _ _ _ _ H)
    as [-> [Hid _]].
  set (i := next_id (map BlogPost.id (App.posts s))) in *.
  assert (Hold : find (fun q => match BlogPost.id q with
                                | Some j => j =? i
                                | None => false
                                end) (App.posts s) = None).
  { apply find_by_id_none. intros Hin. apply next_id_fresh in Hin.
    unfold i in Hin. lia. }
  exists i. split; [exact Hid|]. unfold App.get_or_404. simpl.
  split; [|split].
  - rewrite find_snoc, Hold, Hid, Z.eqb_refl. reflexivity.
  - now rewrite Hold.
  - intros j Hj. clear Hold. rewrite find_snoc, Hid.
    assert (E : (i =? j) = false) by (apply Z.eqb_neq; congruence).
    rewrite E.
    match goal with
    | |- context [find ?f (App.posts s)] => destruct (find f (App.posts s))
    end; reflexivity.
Qed.

Lemma create_post_then_lookup_witness :
  exists p s',
    App.create_post 1 Sample.store 100 101 1 Sample.form
    = Some (App.Redirect p, s') /\
    App.get_or_404 (App.posts s') (Some 1) = App.Ok p.
Proof.
  eexists. eexists. split; [vm_compute; reflexivity|].
  destruct (create_post_then_lookup 1 Sample.store _ 100 101 1 Sample.form
              _ eq_refl) as [i [Hi [Hfound _]]].
  injection Hi as <-. exact Hfound.
Defined.

(** X8.  [create_post] keeps the primary keys and the slugs of the stored
    posts unique. *)
Theorem create_post_keeps_unique (fuel : nat) (s s' : App.Store)
        (t_init t_flush user : Z) (form : BlogPostForm.t) (page : App.Page) :
  Inv.unique_posts (App.posts s) ->
  App.create_post fuel s t_init t_flush user form = Some (page, s') ->
  Inv.unique_posts (App.posts s').
Proof.
  intros [Hids Hslugs] H. destruct page as [p| |].
  - destruct (create_post_stored _ _ _ _ _ _ _ _ H)
      as [-> [Hid [[g [Hg Hslug]] _]]].
    unfold Inv.unique_posts. simpl. rewrite !map_app. simpl.
    rewrite !keys_snoc, Hid, Hslug. split.
    + apply NoDup_snoc; [exact Hids|]. intros Hin.
      apply keys_In, next_id_fresh in Hin. lia.
    + apply NoDup_snoc; [exact Hslugs|]. intros Hin. apply keys_In in Hin.
      apply first_by_slug_used in Hin. apply Hin.
      eapply slug_loop_result_free, Hg.
  - rewrite (create_post_not_stored _ _ _ _ _ _ _ _ H); [|discriminate].
    split; assumption.
  - rewrite (create_post_not_stored _ _ _ _ _ _ _ _ H); [|discriminate].
    split; assumption.
Qed.

Lemma create_post_keeps_unique_witness :
  exists page s',
    App.create_post 1 Sample.store 100 101 1 Sample.form = Some (page, s') /\
    Inv.unique_posts (App.posts s').
Proof.
  eexists. eexists. split; [vm_compute; reflexivity|].
  apply (create_post_keeps_unique 1 Sample.store _ 100 101 1 Sample.form
           _ ltac:(split; constructor) eq_refl).
Defined.

End StoredRows.

(** ** Comments, search and related posts *)
Section CommentsAndSearch.

Lemma get_or_404_found (table : list BlogPost.t) (post_id : option Z)
      (p : BlogPost.t) :
  App.get_or_404 table post_id = App.Ok p ->
  exists i, post_id = Some i /\ In p table /\ BlogPost.id p = Some i.
Proof.
  unfold App.get_or_404. destruct post_id as [i|]; [|discriminate].
  destruct (find _ table) as [q|] eqn:E; [|discriminate].
  intros [= <-]. apply find_some in E. destruct E as [Hin Hq].
  exists i. split; [reflexivity|]. split; [exact Hin|].
  destruct (BlogPost.id q) as [j|]; [|discriminate].
  apply Z.eqb_eq in Hq. now subst.
Qed.



(** A post that does not allow comments still gets one. *)
Example comment_on_closed_post :
  let closed :=
    BlogPost.mk (Some 1) (Some (lit "Closed")) (Some (lit "Text."))
                None (Some (lit "closed")) None None (Some true)
                (Some false) (Some false) None (Some 0) (Some 3) (Some 3)
                None (Some 1) (Some 1) in
  exists c s',
    App.api_add_comment (App.mkStore [] [closed] []) 9 2 (Some 1)
                        (Some (lit "  Hi  "))
    = (App.Ok c, s') /\ Comment.content c = Some (lit "Hi").
Proof. eexists. eexists. split; reflexivity. Qed.

Lemma creation_keeps_comments_on_posts (s s' : App.Store) :
  Inv.comments_on_posts s -> Inv.creation s s' -> Inv.comments_on_posts s'.
Proof.
  intros Hinv [now user post_id content out H
              | fuel t_init t_flush user form page H].
  - destruct out as [c|st|].
    + destruct (api_add_comment_top_level _ _ _ _ _ _ _ H) as [_ Hc].
      assert (Hp : App.posts s' = App.posts s /\
                   exists p i, In p (App.posts s) /\ BlogPost.id p = Some i
                               /\ Comment.post_id c = Some i).
      { unfold App.api_add_comment in H.
        destruct (negb _); [discriminate|].
        assert (Hfound : forall p, App.get_or_404 (App.posts s) post_id
                                   = App.Ok p ->
                         exists q i, In q (App.posts s) /\
                                     BlogPost.id q = Some i /\
                                     post_id = Some i).
        { intros p Eg.
          destruct (get_or_404_found _ _ _ Eg) as [i [-> [Hin Hid]]].
          now exists p, i. }
        destruct post_id as [i|].
        - destruct (App.sqlite_integer i); [|discriminate].
          destruct (App.get_or_404 (App.posts s) (Some i)) as [p| |] eqn:Eg;
            try discriminate.
          injection H as <- <-. split; [reflexivity|].
          destruct (Hfound _ eq_refl) as [q [j [Hin [Hid Hj]]]].
          exists q, j. now rewrite Hj.
        - destruct (App.get_or_404 (App.posts s) None) as [p| |] eqn:Eg;
            discriminate. }
      destruct Hp as [Hposts Hnew]. intros x Hx. rewrite Hc in Hx.
      rewrite Hposts. apply in_app_or in Hx.
      destruct Hx as [Hx | [<- | []]]; [now apply Hinv | exact Hnew].
    + rewrite (api_add_comment_refused _ _ _ _ _ _ _ H); [exact Hinv|].
      discriminate.
    + rewrite (api_add_comment_refused _ _ _ _ _ _ _ H); [exact Hinv|].
      discriminate.
  - destruct page as [p| |].
    + destruct (create_post_stored _ _ _ _ _ _ _ _ H) as [-> _].
      intros c Hc. destruct (Hinv c Hc) as [q [i [Hq Hi]]].
      exists q, i. split; [apply in_or_app; now left | exact Hi].
    + rewrite (create_post_not_stored _ _ _ _ _ _ _ _ H); [exact Hinv|].
      discriminate.
    + rewrite (create_post_not_stored _ _ _ _ _ _ _ _ H); [exact Hinv|].
      discriminate.
Qed.

(** X10.  When every stored comment is attached to a stored post, this
    still holds after any number of requests that create posts and
    comments. *)
Theorem comments_stay_on_posts (s s' : App.Store) :
  Inv.comments_on_posts s -> Inv.creations s s' -> Inv.comments_on_posts s'.
Proof.
  intros Hinv Hsteps. induction Hsteps as [s | s s' s'' _ IH Hstep].
  - exact Hinv.
  - eapply creation_keeps_comments_on_posts; [apply IH, Hinv | exact Hstep].
Qed.

Lemma comments_stay_on_posts_witness :
  Inv.comments_on_posts
    (snd (App.api_add_comment
            (App.mkStore [] [BlogPost.stored [] 3 Sample.hello_kw] [])
            9 1 (Some 1) (Some (lit "Nice post.")))).
Proof.
  apply (comments_stay_on_posts
           (App.mkStore [] [BlogPost.stored [] 3 Sample.hello_kw] [])).
  - intros c [].
  - eapply Inv.creations_more; [apply Inv.creations_none|].
    eapply (Inv.creates_comment _ _ 9 1 (Some 1) (Some (lit "Nice post."))).
    apply surjective_pairing.
Defined.

Lemma firstn_incl {A : Type} (n : nat) (l : list A) (x : A) :
  In x (firstn n l) -> In x l.
Proof.
  revert l. induction n as [|n IH]; intros [|y l]; simpl; try tauto.
  intros [-> | H]; [now left | right; now apply IH].
Qed.

Lemma search_rows_sound (term : pystr) (table : list BlogPost.t) :
  forall (limit : nat) (rows : list BlogPost.t),
    App.search_rows limit term table = Some rows ->
    (List.length rows <= limit)%nat /\
    forall p, In p rows ->
      In p table /\ App.search_filter term p = Some true.
Proof.
  induction table as [|p rest IH]; intros limit rows H.
  - destruct limit; cbn [App.search_rows] in H; injection H as <-;
      (split; [simpl; lia | intros q []]).
  - destruct limit as [|n]; cbn [App.search_rows] in H.
    + injection H as <-. split; [simpl; lia | intros q []].
    + destruct (App.search_filter term p) as [[|]|] eqn:E; [| |discriminate].
      * destruct (App.search_rows n term rest) as [found|] eqn:Er;
          [|discriminate].
        cbn [option_map] in H. injection H as <-.
        destruct (IH _ _ Er) as [Hl Hin].
        split; [cbn [List.length]; lia|].
        intros q [<- | Hq]; [split; [now left | exact E]|].
        destruct (Hin q Hq) as [Hq1 Hq2]. split; [now right | exact Hq2].
      * destruct (IH _ _ H) as [Hl Hin]. split; [exact Hl|].
        intros q Hq. destruct (Hin q Hq) as [Hq1 Hq2].
        split; [now right | exact Hq2].
Qed.

(** X11.  An answer of [api_search] never holds more than ten posts; each
    of them is a stored post that the filter selects for the term without
    its surrounding whitespace, and it has an excerpt and a stored
    category, without which the request fails. *)
Theorem api_search_rows (s : App.Store) (search : option App.Json)
        (rows : list BlogPost.t) (sent : list App.Statement) :
  App.api_search s search = (App.Ok rows, sent) ->
  (List.length rows <= 10)%nat /\
  forall p, In p rows ->
    In p (App.posts s) /\
    (exists excerpt, BlogPost.excerpt p = Some excerpt) /\
    (exists c, In c (App.categories s) /\
               Category.id c = BlogPost.category_id p) /\
    exists term, search = Some (App.JString term) /\
                 3 <= len (strip_ws term) /\
                 App.search_filter (strip_ws term) p = Some true.
Proof.
  unfold App.api_search.
  destruct search as [[| b | n | term]|]; try discriminate.
  - destruct (negb (truthy (Some (strip_ws term)))
              || (len (strip_ws term) <? 3)) eqn:E.
    + intros [= <- <-]. split; [simpl; lia|]. intros p [].
    + destruct (App.search_rows 10 (strip_ws term) (App.posts s))
        as [found|] eqn:Ef; [|discriminate].
      destruct (forallb (App.renders s) found) eqn:Er; [|discriminate].
      intros [= <- <-]. apply orb_false_elim in E. destruct E as [_ E].
      apply Z.ltb_ge in E.
      destruct (search_rows_sound _ _ _ _ Ef) as [Hl Hin].
      split; [exact Hl|]. intros p Hp.
      destruct (Hin p Hp) as [Hstored Hf].
      rewrite forallb_forall in Er. specialize (Er p Hp).
      unfold App.renders in Er.
      destruct (BlogPost.excerpt p) as [e|]; [|discriminate].
      destruct (BlogPost.category_id p) as [i|]; [|discriminate].
      apply existsb_exists in Er. destruct Er as [c [Hc Hid]].
      split; [exact Hstored|]. split; [now exists e|].
      split; [|now exists term].
      exists c. split; [exact Hc|].
      destruct (Category.id c) as [j|]; [|discriminate].
      apply Z.eqb_eq in Hid. now subst.
  - intros [= <- <-]. split; [simpl; lia|]. intros p [].
Qed.

Lemma api_search_rows_witness :
  let post := Sample.post_of (lit "Hello World") (lit "Some text.")
                             (lit "Some text.") in
  In post [post] /\
  App.search_filter (strip_ws (lit " hello ")) post = Some true.
Proof.
  intros post.
  destruct (api_search_rows
              (App.mkStore (App.categories Sample.store) [post] [])
              (Some (App.JString (lit " hello "))) _ _ eq_refl)
    as [_ H].
  destruct (H post ltac:(now left))
    as [Hin [_ [_ [term [[= <-] [_ Hf]]]]]].
  split; [exact Hin | exact Hf].
Defined.

Lemma lstrip_gap (cls : ascii -> bool) (gap s : pystr) :
  Forall (fun c => cls c = true) gap ->
  lstrip cls (gap ++ s) = lstrip cls s.
Proof.
  induction 1 as [|c g Hc _ IH]; simpl; [reflexivity|]. now rewrite Hc.
Qed.

Lemma lstrip_app (cls : ascii -> bool) (s gap : pystr) :
  lstrip cls s <> [] -> lstrip cls (s ++ gap) = lstrip cls s ++ gap.
Proof.
  induction s as [|c r IH]; simpl; [congruence|].
  destruct (cls c); [exact IH | reflexivity].
Qed.

Lemma lstrip_all (cls : ascii -> bool) (s : pystr) :
  Forall (fun c => cls c = true) s -> lstrip cls s = [].
Proof.
  intros H. rewrite <- (app_nil_r s). now rewrite lstrip_gap.
Qed.

Lemma lstrip_nil_all (cls : ascii -> bool) (s : pystr) :
  lstrip cls s = [] -> Forall (fun c => cls c = true) s.
Proof.
  induction s as [|c r IH]; simpl; [constructor|].
  destruct (cls c) eqn:E; [|discriminate].
  intros H. constructor; [exact E | now apply IH].
Qed.

Lemma strip_padded (cls : ascii -> bool) (gap s gap' : pystr) :
  Forall (fun c => cls c = true) gap ->
  Forall (fun c => cls c = true) gap' ->
  strip cls (gap ++ s ++ gap') = strip cls s.
Proof.
  intros Hg Hg'. unfold strip, rstrip. rewrite lstrip_gap by assumption.
  f_equal. destruct (lstrip cls s) as [|c r] eqn:E.
  - apply lstrip_nil_all in E.
    rewrite (lstrip_all cls (s ++ gap')) by (apply Forall_app; now split).
    reflexivity.
  - rewrite lstrip_app by (rewrite E; discriminate). rewrite E.
    rewrite rev_app_distr. apply lstrip_gap. now apply Forall_rev.
Qed.

(** X12.  Whitespace around the search term does not count: a term and the
    same term surrounded by whitespace get the same answer. *)
Theorem api_search_ignores_padding (s : App.Store) (gap term gap' : pystr) :
  Forall (fun c => isspace c = true) gap ->
  Forall (fun c => isspace c = true) gap' ->
  App.api_search s (Some (App.JString (gap ++ term ++ gap')))
  = App.api_search s (Some (App.JString term)).
Proof.
  intros Hg Hg'. unfold App.api_search, strip_ws.
  now rewrite (strip_padded isspace gap term gap' Hg Hg').
Qed.

Lemma api_search_ignores_padding_witness :
  App.api_search (App.mkStore [] [Sample.hello_kw] [])
                 (Some (App.JString (lit "  world ")))
  = App.api_search (App.mkStore [] [Sample.hello_kw] [])
                   (Some (App.JString (lit "world"))).
Proof.
  apply (api_search_ignores_padding _ (lit "  ") (lit "world") (lit " "));
    repeat constructor.
Defined.

End CommentsAndSearch.

Section WildcardsAndTags.

Lemma like_underscore (p : pystr) (d : ascii) (text : pystr) :
  Sql.pattern_compare ("_"%char :: p) (d :: text) = Sql.pattern_compare p text.
Proof. reflexivity. Qed.

Lemma wildcard_cases (c : ascii) :
  Spec.wildcard c = true -> c = "%"%char \/ c = "_"%char.
Proof.
  destruct c as [[] [] [] [] [] [] [] []]; vm_compute; intros;
    solve [now left | now right | discriminate].
Qed.

Lemma wildcards_plain (term : pystr) :
  Forall (fun c => Spec.wildcard c = true) term ->
  Forall (fun c => is_code 0 c = false) term.
Proof.
  apply Forall_impl. intros c Hc.
  destruct (wildcard_cases c Hc) as [-> | ->]; reflexivity.
Qed.

Lemma like_wildcards (term : pystr) :
  Forall (fun c => Spec.wildcard c = true) term ->
  forall text,
    (Inv.underscores term <= List.length text)%nat ->
    Sql.pattern_compare (term ++ ["%"%char]) text = true.
Proof.
  unfold Inv.underscores.
  induction 1 as [|c term Hc _ IH]; intros text Hlen.
  - apply like_any_run. exists text, [].
    split; [now rewrite app_nil_r | reflexivity].
  - destruct (wildcard_cases c Hc) as [-> | ->].
    + change (("%"%char :: term) ++ ["%"%char])
        with ("%"%char :: (term ++ ["%"%char])).
      apply like_any_run. exists [], text. split; [reflexivity|].
      apply IH. exact Hlen.
    + change (("_"%char :: term) ++ ["%"%char])
        with ("_"%char :: (term ++ ["%"%char])).
      change (filter (is_code 95) ("_"%char :: term))
        with ("_"%char :: filter (is_code 95) term) in Hlen.
      destruct text as [|d text]; cbn [List.length] in Hlen; [lia|].
      rewrite like_underscore. apply IH. lia.
Qed.

(** X13.  A search term made only of [%] and [_], of at most 49998
    characters, selects every post whose title, read up to its first
    U+0000, has at least as many characters as the term has [_]: the
    wildcards of LIKE are not escaped. *)
Theorem search_filter_wildcards_only (term title : pystr) (p : BlogPost.t) :
  Forall (fun c => Spec.wildcard c = true) term ->
  Sql.utf8_len term <= 49998 ->
  BlogPost.title p = Some title ->
  (Inv.underscores term <= List.length (Sql.c_string title))%nat ->
  App.search_filter term p = Some true.
Proof.
  intros Hterm Hsize Ht Hlen.
  rewrite (search_filter_accepted term p (wildcards_plain term Hterm) Hsize).
  rewrite Ht. cbn [option_map].
  assert (H : Sql.pattern_compare (lit "%" ++ term ++ lit "%")
                                  (Sql.c_string title) = true).
  { change (lit "%" ++ term ++ lit "%")
      with ("%"%char :: (term ++ ["%"%char])).
    apply like_any_run. exists [], (Sql.c_string title).
    split; [reflexivity|]. now apply like_wildcards. }
  rewrite H. reflexivity.
Qed.

Lemma search_filter_wildcards_only_witness :
  App.search_filter (lit "%_%") Sample.hello_kw = Some true.
Proof.
  apply (search_filter_wildcards_only (lit "%_%") (lit "Hello World")).
  - repeat constructor.
  - vm_compute. discriminate.
  - reflexivity.
  - vm_compute. lia.
Defined.

(** A title is read up to its first U+0000: the three characters that
    follow it are not counted. *)
Example search_filter_cut_title :
  App.search_filter (lit "___")
    (Sample.post_of (lit "ab" ++ [chr 0] ++ lit "cd") (lit "x")
                    (lit "y"))
  = Some false.
Proof. vm_compute. reflexivity. Qed.

(** X14.  The related posts of a post are at most three stored posts of
    the same category as the post, and the post itself is never among
    them. *)
Theorem related_posts_sound (table : list BlogPost.t) (post : BlogPost.t)
        (post_id : Z) :
  (List.length (App.related_posts table post post_id) <= 3)%nat /\
  forall r, In r (App.related_posts table post post_id) ->
    In r table /\
    BlogPost.category_id r = BlogPost.category_id post /\
    exists i, BlogPost.id r = Some i /\ i <> post_id.
Proof.
  unfold App.related_posts. split; [apply firstn_le_length|].
  intros r Hr. apply firstn_incl, filter_In in Hr. destruct Hr as [Hin Hf].
  apply andb_true_iff in Hf. destruct Hf as [Hc Hi].
  split; [exact Hin|]. split.
  - destruct (BlogPost.category_id r) as [a|],
             (BlogPost.category_id post) as [b|]; try discriminate;
      [apply Z.eqb_eq in Hc; now subst | reflexivity].
  - destruct (BlogPost.id r) as [i|]; [|discriminate].
    exists i. split; [reflexivity|]. intros ->.
    rewrite Z.eqb_refl in Hi. discriminate.
Qed.

Lemma split_on_field (sep : ascii) (x : pystr) :
  ~ In sep x -> split_on sep x = [x].
Proof.
  induction x as [|c r IH]; intros H; simpl; [reflexivity|].
  assert (Hc : Ascii.eqb c sep = false)
    by (apply Ascii.eqb_neq; intros ->; apply H; now left).
  rewrite Hc, IH; [reflexivity|]. intros Hin. apply H. now right.
Qed.

Lemma split_on_fields (sep : ascii) (x y : pystr) :
  ~ In sep x -> split_on sep (x ++ sep :: y) = x :: split_on sep y.
Proof.
  induction x as [|c r IH]; intros H; simpl.
  - now rewrite Ascii.eqb_refl.
  - assert (Hc : Ascii.eqb c sep = false)
      by (apply Ascii.eqb_neq; intros ->; apply H; now left).
    rewrite Hc, IH; [reflexivity|]. intros Hin. apply H. now right.
Qed.

Lemma split_on_not_nil (sep : ascii) (s : pystr) : split_on sep s <> [].
Proof.
  destruct s as [|c r]; simpl; [discriminate|].
  destruct (Ascii.eqb c sep); [discriminate|].
  destruct (split_on sep r); discriminate.
Qed.

Lemma tag_names_of_join (x : pystr) (names : list pystr) :
  Forall (fun n => ~ In ","%char n /\ strip_ws n = n) (x :: names) ->
  App.tag_names (BlogPost.tag_list (x :: names)) = x :: names.
Proof.
  unfold App.tag_names, BlogPost.tag_list. revert x.
  induction names as [|y names IH]; intros x Hall.
  - inversion Hall as [|? ? [Hx Hs] _]; subst. cbn [join].
    rewrite split_on_field by assumption. simpl. now rewrite Hs.
  - inversion Hall as [|? ? [Hx Hs] Hrest]; subst.
    change (join (lit ", ") (x :: y :: names))
      with (x ++ ","%char :: " "%char :: join (lit ", ") (y :: names)).
    rewrite split_on_fields by assumption.
    specialize (IH y Hrest).
    assert (Hsp : map strip_ws
                    (split_on ","%char
                       (" "%char :: join (lit ", ") (y :: names)))
                  = map strip_ws
                      (split_on ","%char (join (lit ", ") (y :: names)))).
    { cbn [split_on]. change (Ascii.eqb " "%char ","%char) with false.
      cbv iota.
      destruct (split_on ","%char (join (lit ", ") (y :: names)))
        as [|f fs] eqn:E; [now apply split_on_not_nil in E|].
      cbn [map]. f_equal. }
    cbn [map]. rewrite Hsp, IH, Hs. reflexivity.
Qed.

(** X15.  The tag list shown for a post reads back as the same tags: for
    names that hold no comma and no surrounding whitespace, and at least
    one of them, splitting the comma-separated list as [create_post] does
    gives the names again. *)
Theorem tag_list_round_trip (names : list pystr) :
  names <> [] ->
  Forall (fun n => ~ In ","%char n /\ strip_ws n = n) names ->
  App.tag_names (BlogPost.tag_list names) = names.
Proof.
  intros Hne Hall. destruct names as [|x names]; [congruence|].
  now apply tag_names_of_join.
Qed.

Lemma tag_list_round_trip_witness :
  App.tag_names (BlogPost.tag_list [lit "HTML"; lit "CSS"; lit "web dev"])
  = [lit "HTML"; lit "CSS"; lit "web dev"].
Proof.
  apply tag_list_round_trip; [discriminate|].
  repeat constructor; try reflexivity;
    intros H; repeat (destruct H as [H|H]; [discriminate|]); exact H.
Defined.

End WildcardsAndTags.

(** ** Accounts *)
Lemma find_by_key_none {A : Type} (key : A -> option pystr)
      (table : list A) (s : pystr) :
  find (fun u => match key u with
                 | Some n => str_eqb n s
                 | None => false
                 end) table = None ->
  ~ In (Some s) (map key table).
Proof.
  induction table as [|u t IH]; simpl; [tauto|].
  destruct (key u) as [n|] eqn:E.
  - destruct (str_eqb n s) eqn:En; [discriminate|].
    intros H [Hin | Hin]; [|now apply IH].
    injection Hin as ->. rewrite (proj2 (str_eqb_eq s s) eq_refl) in En.
    discriminate.
  - intros H [Hin | Hin]; [discriminate | now apply IH].
Qed.

Section Accounts.

Variable valid_email : pystr -> bool.
Variable generate_password_hash : pystr -> pystr.
Variable check_password_hash : pystr -> pystr -> bool.

Lemma validate_parts (users : list User.t) (f : RegisterForm.t) :
  RegisterForm.validate valid_email users f = true ->
  RegisterForm.unique_username users (RegisterForm.username f) = true /\
  RegisterForm.unique_email users (RegisterForm.email f) = true /\
  BlogPostForm.data_required (RegisterForm.email f) = true /\
  valid_email (RegisterForm.email f) = true /\
  BlogPostForm.length_ok (-1) 120 (RegisterForm.email f) = true /\
  BlogPostForm.data_required (RegisterForm.password f) = true /\
  BlogPostForm.length_ok 8 (-1) (RegisterForm.password f) = true /\
  BlogPostForm.length_ok 4 20 (RegisterForm.username f) = true /\
  RegisterForm.username_regexp (RegisterForm.username f) = true.
Proof.
  unfold RegisterForm.validate. intros H.
  repeat (apply andb_true_iff in H; destruct H as [H ?]).
  repeat split; assumption.
Qed.

(** What a successful [register] has done. *)
Lemma register_stored (users users' : list User.t) (now : Z)
      (form : RegisterForm.t) (a : App.Answer) :
  App.register valid_email generate_password_hash false users now form
  = (a, users') ->
  App.reply a = App.RedirectTo (lit "/login") ->
  RegisterForm.validate valid_email users form = true /\
  User.first_by_email users (RegisterForm.email form) = None /\
  users' =
  users ++ [User.stored users now
              (User.mk None (Some (RegisterForm.username form))
                 (Some (RegisterForm.email form))
                 (Some (generate_password_hash (RegisterForm.password form)))
                 None None None None None None None None None)].
Proof.
  unfold App.register.
  destruct (RegisterForm.validate valid_email users form);
    [|intros [= <- _]; discriminate].
  destruct (User.first_by_email users (RegisterForm.email form));
    [intros [= <- _]; discriminate|].
  intros [= <- <-] _. repeat split.
Qed.

Lemma register_unchanged (authenticated : bool) (users users' : list User.t)
      (now : Z) (form : RegisterForm.t) (a : App.Answer) :
  App.register valid_email generate_password_hash authenticated users now
               form = (a, users') ->
  App.reply a <> App.RedirectTo (lit "/login") ->
  users' = users.
Proof.
  unfold App.register. destruct authenticated; [now intros [= _ <-]|].
  destruct (RegisterForm.validate valid_email users form);
    [|now intros [= _ <-]].
  destruct (User.first_by_email users (RegisterForm.email form));
    [now intros [= _ <-]|].
  intros [= <- _] H. now elim H.
Qed.

(** X16.  [register] keeps the primary keys, the user names and the
    addresses of the stored users unique, whatever the form holds. *)
Theorem register_keeps_unique (authenticated : bool)
        (users users' : list User.t) (now : Z) (form : RegisterForm.t)
        (a : App.Answer) :
  Inv.unique_users users ->
  App.register valid_email generate_password_hash authenticated users now
               form = (a, users') ->
  Inv.unique_users users'.
Proof.
  intros Hinv H.
  destruct (App.reply a) as [url | template] eqn:Er.
  - destruct (list_eq_dec ascii_dec url (lit "/login")) as [-> | Hurl].
    + destruct authenticated.
      { unfold App.register in H. injection H as <- _. discriminate. }
      destruct (register_stored _ _ _ _ _ H Er) as [Hv [Hemail ->]].
      destruct (validate_parts _ _ Hv) as [Hname _].
      destruct Hinv as [Hids [Hnames Hemails]].
      unfold Inv.unique_users. rewrite !map_app. cbn [map User.stored
        User.id User.username User.email or_default].
      rewrite !keys_snoc. repeat split; apply NoDup_snoc; try assumption.
      * intros Hin. apply keys_In, next_id_fresh in Hin. lia.
      * intros Hin. apply keys_In in Hin. revert Hin.
        apply find_by_key_none. unfold RegisterForm.unique_username in Hname.
        unfold User.first_by_username in Hname.
        destruct (find _ users); [discriminate | reflexivity].
      * intros Hin. apply keys_In in Hin. revert Hin.
        apply find_by_key_none. exact Hemail.
    + rewrite (register_unchanged _ _ _ _ _ _ H); [exact Hinv|].
      rewrite Er. congruence.
  - rewrite (register_unchanged _ _ _ _ _ _ H); [exact Hinv|].
    rewrite Er. discriminate.
Qed.

(** X17.  The user stored by [register] has the name, the address and the
    password hash of the form, is active and is no administrator; the
    first and last names of the form are not stored, so the full name of
    the user is the user name. *)
Theorem register_stores_user (users users' : list User.t) (now : Z)
        (form : RegisterForm.t) (a : App.Answer) :
  App.register valid_email generate_password_hash false users now form
  = (a, users') ->
  App.reply a = App.RedirectTo (lit "/login") ->
  exists u,
    users' = users ++ [u] /\
    User.username u = Some (RegisterForm.username form) /\
    User.email u = Some (RegisterForm.email form) /\
    User.password_hash u
    = Some (generate_password_hash (RegisterForm.password form)) /\
    User.first_name u = None /\ User.last_name u = None /\
    User.full_name u = Some (RegisterForm.username form) /\
    User.is_active u = Some true /\ User.is_admin u = Some false /\
    User.email_confirmed u = Some false /\
    User.id u = Some (next_id (map User.id users)).
Proof.
  intros H Hr. destruct (register_stored _ _ _ _ _ H Hr) as [_ [_ ->]].
  eexists. split; [reflexivity|]. repeat split.
Qed.

(** X18.  Registering and then logging in with the same address and
    password opens a session for the new user, provided the hash that was
    stored verifies against the password. *)
Theorem register_then_login (users users' : list User.t) (now : Z)
        (form : RegisterForm.t) (a : App.Answer) (remember : bool)
        (next : option pystr) :
  App.register valid_email generate_password_hash false users now form
  = (a, users') ->
  App.reply a = App.RedirectTo (lit "/login") ->
  check_password_hash (generate_password_hash (RegisterForm.password form))
                      (RegisterForm.password form) = true ->
  exists u answer,
    users' = users ++ [u] /\
    App.login valid_email check_password_hash false users'
              (LoginForm.mk (RegisterForm.email form)
                            (RegisterForm.password form) remember)
              next = Some answer /\
    App.session_user answer = Some u /\
    App.flashed answer = [lit "Login successful!"] /\
    App.reply answer
    = App.RedirectTo (match next with
                      | Some (c :: r) => c :: r
                      | _ => lit "/"
                      end).
Proof.
  intros H Hr Hcheck.
  destruct (register_stored _ _ _ _ _ H Hr) as [Hv [Hemail ->]].
  destruct (validate_parts _ _ Hv)
    as [_ [_ [He1 [He2 [He3 [Hp1 [Hp2 _]]]]]]].
  eexists. eexists. split; [reflexivity|].
  unfold App.login.
  assert (Hlv : LoginForm.validate valid_email
                  (LoginForm.mk (RegisterForm.email form)
                     (RegisterForm.password form) remember) = true).
  { unfold LoginForm.validate. cbn [LoginForm.email LoginForm.password].
    rewrite He1, He2, He3, Hp1. simpl.
    unfold BlogPostForm.length_ok in *.
    apply andb_true_iff in Hp2. destruct Hp2 as [Hp2 _].
    apply Z.leb_le in Hp2. apply andb_true_iff. split; [|reflexivity].
    apply Z.leb_le. lia. }
  rewrite Hlv. cbn [LoginForm.email LoginForm.password].
  unfold User.first_by_email in *. rewrite find_snoc, Hemail.
  cbn [User.stored User.email or_default].
  rewrite (proj2 (str_eqb_eq _ _) eq_refl).
  cbn [User.stored User.password_hash User.is_active or_default].
  rewrite Hcheck. repeat split.
Qed.

(** X19.  [login] opens a session only for a stored user whose address
    is the one of the form, whose stored hash verifies against the
    password of the form, and who is active; never for a request that is
    already authenticated. *)
Theorem login_sound (authenticated : bool) (users : list User.t)
        (form : LoginForm.t) (next : option pystr) (answer : App.Answer)
        (u : User.t) :
  App.login valid_email check_password_hash authenticated users form next
  = Some answer ->
  App.session_user answer = Some u ->
  authenticated = false /\
  LoginForm.validate valid_email form = true /\
  In u users /\
  User.email u = Some (LoginForm.email form) /\
  User.is_active u = Some true /\
  exists h, User.password_hash u = Some h /\
            check_password_hash h (LoginForm.password form) = true.
Proof.
  unfold App.login. destruct authenticated; [intros [= <-]; discriminate|].
  destruct (LoginForm.validate valid_email form);
    [|intros [= <-]; discriminate].
  destruct (User.first_by_email users (LoginForm.email form)) as [v|] eqn:E;
    [|intros [= <-]; discriminate].
  destruct (User.password_hash v) as [h|] eqn:Eh; [|discriminate].
  destruct (check_password_hash h (LoginForm.password form)) eqn:Ec;
    [|intros [= <-]; discriminate].
  intros [= <-]. simpl.
  destruct (User.is_active v) as [[|]|] eqn:Ea; try discriminate.
  intros [= <-]. unfold User.first_by_email in E. apply find_some in E.
  destruct E as [Hin Hm]. repeat split; try assumption.
  - destruct (User.email v) as [e|]; [|discriminate].
    apply str_eqb_eq in Hm. now subst.
  - now exists h.
Qed.

End Accounts.

Section AccountWitnesses.

Lemma register_keeps_unique_witness :
  Inv.unique_users
    (snd (App.register Sample.any_email Sample.toy_hash false [] 5
                       Sample.register_form)).
Proof.
  apply (register_keeps_unique Sample.any_email Sample.toy_hash false []
           _ 5 Sample.register_form
           (fst (App.register Sample.any_email Sample.toy_hash false [] 5
                              Sample.register_form))).
  - repeat split; constructor.
  - apply surjective_pairing.
Defined.

Lemma register_stores_user_witness :
  exists u,
    snd (App.register Sample.any_email Sample.toy_hash false [] 5
                      Sample.register_form) = [u] /\
    User.full_name u = Some (lit "alice").
Proof.
  destruct (register_stores_user Sample.any_email Sample.toy_hash [] _ 5
              Sample.register_form _
              (surjective_pairing
                 (App.register Sample.any_email Sample.toy_hash false [] 5
                               Sample.register_form)) eq_refl)
    as [u [Hu [_ [_ [_ [_ [_ [Hfull _]]]]]]]].
  exists u. split; [exact Hu | exact Hfull].
Defined.

Lemma register_then_login_witness :
  exists u answer,
    App.login Sample.any_email Sample.toy_check false
      (snd (App.register Sample.any_email Sample.toy_hash false [] 5
                         Sample.register_form))
      (LoginForm.mk (lit "alice@example.com") (lit "wonderland") false)
      None = Some answer /\
    App.session_user answer = Some u /\
    User.username u = Some (lit "alice").
Proof.
  destruct (register_then_login Sample.any_email Sample.toy_hash
              Sample.toy_check [] _ 5 Sample.register_form _ false None
              (surjective_pairing
                 (App.register Sample.any_email Sample.toy_hash false [] 5
                               Sample.register_form)) eq_refl eq_refl)
    as [u [answer [Hu [Hl [Hs _]]]]].
  exists u, answer. split; [exact Hl|]. split; [exact Hs|].
  injection Hu as <-. reflexivity.
Defined.

Lemma login_sound_witness :
  exists u,
    In u (snd (App.register Sample.any_email Sample.toy_hash false [] 5
                            Sample.register_form)) /\
    User.is_active u = Some true.
Proof.
  eexists.
  destruct (login_sound Sample.any_email Sample.toy_check false
              (snd (App.register Sample.any_email Sample.toy_hash false [] 5
                                 Sample.register_form))
              (LoginForm.mk (lit "alice@example.com") (lit "wonderland")
                            false)
              None _ _ eq_refl eq_refl) as [_ [_ [Hin [_ [Ha _]]]]].
  split; [exact Hin | exact Ha].
Defined.

End AccountWitnesses.

Section RegisterOutcome.

Variable valid_email : pystr -> bool.
Variable generate_password_hash : pystr -> pystr.

(** X20.  [register] stores a user exactly when no user is logged in and
    the form validates: the second look-up of the address by the handler
    never finds anything that the validator [unique_email] let through, so
    the answer "Email already registered." is never given. *)
Theorem register_outcome (authenticated : bool) (users : list User.t)
        (now : Z) (form : RegisterForm.t) :
  let out := App.register valid_email generate_password_hash authenticated
                          users now form in
  (authenticated = false /\
   RegisterForm.validate valid_email users form = true <->
   App.reply (fst out) = App.RedirectTo (lit "/login")) /\
  (App.reply (fst out) = App.RedirectTo (lit "/login") <->
   snd out <> users) /\
  App.flashed (fst out) <> [lit "Email already registered."].
Proof.
  cbv zeta. unfold App.register. destruct authenticated.
  - simpl. repeat split; try discriminate; try tauto.
    intros [H _]. discriminate.
  - destruct (RegisterForm.validate valid_email users form) eqn:Hv.
    + destruct (validate_parts valid_email _ _ Hv) as [_ [He _]].
      unfold RegisterForm.unique_email in He.
      destruct (User.first_by_email users (RegisterForm.email form));
        [discriminate|].
      cbn [fst snd App.reply App.flashed]. repeat split; try discriminate.
      * intros _ H. unfold User.add in H.
        apply (f_equal (@List.length User.t)) in H.
        rewrite length_app in H. cbn [List.length] in H. lia.
    + cbn [fst snd App.reply App.flashed].
      repeat split; try discriminate; try tauto.
      intros [_ H]. discriminate.
Qed.

End RegisterOutcome.

(** ** Configuration *)
Section Configuration.

Lemma startswith_app (prefix rest : pystr) :
  startswith prefix (prefix ++ rest) = true.
Proof.
  induction prefix as [|c p IH]; simpl; [reflexivity|].
  now rewrite Ascii.eqb_refl.
Qed.

Lemma startswith_split (prefix s : pystr) :
  startswith prefix s = true -> exists rest, s = prefix ++ rest.
Proof.
  revert s. induction prefix as [|c p IH]; intros s H.
  - now exists s.
  - destruct s as [|d s]; [discriminate|]. simpl in H.
    apply andb_true_iff in H. destruct H as [Hc Hp].
    apply Ascii.eqb_eq in Hc. subst d.
    destruct (IH s Hp) as [rest ->]. now exists rest.
Qed.

(** X21.  The database address of the production configuration: an
    address of the environment that begins with [postgres://] is used with
    [postgresql://] in its place and the rest unchanged, any other one that
    is not empty is used as it is, and without one the SQLite file is
    used.  The address in use never begins with [postgres://]. *)
Theorem production_database_uri_spec (database_url : option pystr)
        (db_path : pystr) :
  (forall rest,
     database_url = Some (lit "postgres://" ++ rest) ->
     Config.production_database_uri database_url db_path
     = lit "postgresql://" ++ rest) /\
  (forall url,
     database_url = Some url -> url <> [] ->
     startswith (lit "postgres://") url = false ->
     Config.production_database_uri database_url db_path = url) /\
  (database_url = None \/ database_url = Some [] ->
   Config.production_database_uri database_url db_path
   = lit "sqlite:///" ++ db_path) /\
  startswith (lit "postgres://")
             (Config.production_database_uri database_url db_path) = false.
Proof.
  assert (Hpg : forall rest,
            Config.production_database_uri
              (Some (lit "postgres://" ++ rest)) db_path
            = lit "postgresql://" ++ rest) by reflexivity.
  split; [now intros rest ->|]. split; [|split].
  - intros url -> Hne Hs. unfold Config.production_database_uri.
    destruct url as [|c r]; [congruence|]. now rewrite Hs.
  - intros [-> | ->]; reflexivity.
  - unfold Config.production_database_uri.
    set (uri := match database_url with
                | Some (c :: r) => c :: r
                | _ => lit "sqlite:///" ++ db_path
                end).
    destruct (startswith (lit "postgres://") uri) eqn:E; [|exact E].
    destruct (startswith_split _ _ E) as [rest ->].
    reflexivity.
Qed.

Lemma production_database_uri_spec_witness :
  Config.production_database_uri
    (Some (lit "postgres://user@host/blog")) (lit "/srv/app/blog.db")
  = lit "postgresql://user@host/blog".
Proof.
  destruct (production_database_uri_spec
              (Some (lit "postgres://user@host/blog")) (lit "/srv/app/blog.db"))
    as [H _].
  apply (H (lit "user@host/blog")). reflexivity.
Defined.

End Configuration.
